(** * WebMapServiceCatalogItem and mixGroupTraits: a shallow embedding

    The development follows the two TypeScript sources

    - [lib/Models/WebMapServiceCatalogItem] (the classes
      [GetCapabilitiesStratum] and [WebMapServiceCatalogItem]), and
    - [lib/Traits/mixGroupTraits].

    JavaScript values are embedded as follows: [undefined] is [None]; a string
    is a [string]; an array is a [list]; a [Map] is an insertion-ordered
    association list without duplicate keys; an object literal used as a
    dictionary is a [JsObject.t], with its own properties and its prototype;
    an object whose methods the code calls is a record of functions; a thrown
    exception is [None] in the option monad; MobX observables are fields of
    an explicit store, [runInAction] is a transaction on that store, a getter
    that calls [trace()] takes the context it is read from, and a promise is
    the data that says how it settles. *)

From Stdlib Require Import String Ascii List Bool Arith Lia QArith.
From Stdlib Require Import NArith.
Import ListNotations.
Close Scope Q_scope.
Open Scope string_scope.
Open Scope list_scope.

(** ** JavaScript strings and maps *)

Module Js.

(** [s.split(sep)] for a one-character separator. *)
Fixpoint split (sep : ascii) (s : string) : list string :=
  match s with
  | EmptyString => [EmptyString]
  | String c rest =>
      if Ascii.eqb c sep then EmptyString :: split sep rest
      else match split sep rest with
           | piece :: pieces => String c piece :: pieces
           | [] => [String c EmptyString]
           end
  end.

(** [a.join(sep)] *)
Fixpoint join (sep : ascii) (a : list string) : string :=
  match a with
  | [] => EmptyString
  | piece :: rest =>
      match rest with
      | [] => piece
      | _ :: _ => piece ++ String sep (join sep rest)
      end
  end.

(** The character [c] occurs in [s]. *)
Fixpoint mem_char (c : ascii) (s : string) : bool :=
  match s with
  | EmptyString => false
  | String d rest => Ascii.eqb d c || mem_char c rest
  end.

(** [s.indexOf(needle) > -1] *)
Fixpoint includes (needle s : string) : bool :=
  String.prefix needle s ||
  match s with
  | EmptyString => false
  | String _ rest => includes needle rest
  end.

(** Truthiness of a value of type [string | undefined]: [undefined] and the
    empty string are falsy. *)
Definition truthy (v : option string) : bool :=
  match v with
  | Some s => negb (String.eqb s EmptyString)
  | None => false
  end.

(** [a || b] on values of type [string | undefined]. *)
Definition or (a b : option string) : option string :=
  if truthy a then a else b.

(** Conversion to a string inside a template literal. *)
Definition to_template (v : option string) : string :=
  match v with
  | Some s => s
  | None => "undefined"
  end.

(** Lower-casing of the ASCII letters; the [i] flag of a regular expression
    identifies a letter with its other case. *)
Definition lower_ascii (c : ascii) : ascii :=
  let n := nat_of_ascii c in
  if (65 <=? n)%nat && (n <=? 90)%nat then ascii_of_nat (n + 32) else c.

Fixpoint lower (s : string) : string :=
  match s with
  | EmptyString => EmptyString
  | String c rest => String (lower_ascii c) (lower rest)
  end.

(** A [Map] with string keys iterates in insertion order; [set] on a key that
    is present replaces the value and keeps the key's position. *)
Definition Map (V : Type) : Type := list (string * V).

Fixpoint set {V : Type} (k : string) (v : V) (m : Map V) : Map V :=
  match m with
  | [] => [(k, v)]
  | (k', v') :: rest =>
      if String.eqb k' k then (k', v) :: rest
      else (k', v') :: set k v rest
  end.

Fixpoint get {V : Type} (k : string) (m : Map V) : option V :=
  match m with
  | [] => None
  | (k', v') :: rest => if String.eqb k' k then Some v' else get k rest
  end.

(** [new Map(entries)] *)
Definition of_entries {V : Type} (entries : list (string * V)) : Map V :=
  fold_left (fun m kv => set (fst kv) (snd kv) m) entries [].

Definition keys {V : Type} (m : Map V) : list string := map fst m.
Definition values {V : Type} (m : Map V) : list V := map snd m.
Definition size {V : Type} (m : Map V) : nat := length m.

(** [xs.filter(x => x !== undefined).map(x => x!)] *)
Fixpoint defined {A : Type} (xs : list (option A)) : list A :=
  match xs with
  | [] => []
  | Some x :: rest => x :: defined rest
  | None :: rest => defined rest
  end.

(** [xs.map(f)] where [f] may throw: the first exception aborts the map. *)
Fixpoint map_throwing {A B : Type} (f : A -> option B) (xs : list A)
  : option (list B) :=
  match xs with
  | [] => Some []
  | x :: rest =>
      match f x with
      | None => None
      | Some y =>
          match map_throwing f rest with
          | None => None
          | Some ys => Some (y :: ys)
          end
      end
  end.

End Js.

(** ** JavaScript plain objects whose properties hold arrays

    An object literal [{}] starts with no own property and with
    [Object.prototype] as its prototype. Its own properties enumerate with
    the array indices first, in ascending order, and the other names after
    them in the order of their creation. An assignment to ["__proto__"] does
    not create an own property: it replaces the prototype by the value
    assigned, which here is always an array. *)

Module JsObject.

Definition digit (c : ascii) : option N :=
  let n := N_of_ascii c in
  if (48 <=? n)%N && (n <=? 57)%N then Some (n - 48)%N else None.

Fixpoint digits (s : string) (acc : N) : option N :=
  match s with
  | EmptyString => Some acc
  | String c rest =>
      match digit c with
      | Some d => digits rest (10 * acc + d)%N
      | None => None
      end
  end.

(** The array index that a property name stands for: the name is the
    decimal numeral, without sign or leading zero, of a number below
    2^32 - 1. *)
Definition array_index (name : string) : option N :=
  match name with
  | EmptyString => None
  | String c rest =>
      if Ascii.eqb c "0"
      then match rest with
           | EmptyString => Some 0%N
           | String _ _ => None
           end
      else match digits name 0 with
           | Some n => if (n <? 4294967295)%N then Some n else None
           | None => None
           end
  end.

Record t (X : Type) : Type := {
  indexed : list (string * list X);
  named : Js.Map (list X);
  prototype : option (list X)
}.
Arguments indexed {X} _.
Arguments named {X} _.
Arguments prototype {X} _.

(** [{}] *)
Definition empty {X : Type} : t X :=
  {| indexed := []; named := []; prototype := None |}.

(** The properties named by array indices, kept in ascending order. *)
Fixpoint insert_indexed {X : Type} (i : N) (k : string) (v : list X)
    (m : list (string * list X)) : list (string * list X) :=
  match m with
  | [] => [(k, v)]
  | (k', v') :: rest =>
      if String.eqb k' k then (k, v) :: rest
      else match array_index k' with
           | Some j =>
               if (i <? j)%N then (k, v) :: m
               else (k', v') :: insert_indexed i k v rest
           | None => (k, v) :: m
           end
  end.

(** [o[k] = v] for an array [v] *)
Definition set {X : Type} (k : string) (v : list X) (o : t X) : t X :=
  if String.eqb k "__proto__"
  then {| indexed := indexed o; named := named o; prototype := Some v |}
  else match array_index k with
       | Some i =>
           {| indexed := insert_indexed i k v (indexed o);
              named := named o; prototype := prototype o |}
       | None =>
           {| indexed := indexed o; named := Js.set k v (named o);
              prototype := prototype o |}
       end.

(** The own property called [k]. *)
Definition own {X : Type} (k : string) (o : t X) : option (list X) :=
  match array_index k with
  | Some _ => Js.get k (indexed o)
  | None => Js.get k (named o)
  end.

(** [Object.keys(o)] *)
Definition keys {X : Type} (o : t X) : list string :=
  Js.keys (indexed o) ++ Js.keys (named o).

(** What [o[k]] evaluates to: an array that was assigned, something else
    that the object inherits (a function, a number, an element of the array
    installed as prototype, or [Object.prototype] itself), or [undefined]. *)
Inductive Member (X : Type) : Type :=
| Assigned (v : list X)
| Inherited
| Absent.
Arguments Assigned {X} v.
Arguments Inherited {X}.
Arguments Absent {X}.

(** The own properties of an array: [length] and the indices below it. *)
Definition array_has_own {X : Type} (a : list X) (k : string) : bool :=
  String.eqb k "length"
  || match array_index k with
     | Some i => (i <? N.of_nat (length a))%N
     | None => false
     end.

End JsObject.

(** ** The capabilities document

    [WebMapServiceCapabilities] is declared outside the two sources; the types
    below list the members that the sources and the document's own queries
    ([findLayer], [getInheritedValues], [getRectangleFromLayer]) read. *)

Record Rectangle := {
  west : Q;
  south : Q;
  east : Q;
  north : Q
}.

(** A member typed [T | ReadonlyArray<T>]. *)
Inductive OneOrMany (A : Type) : Type :=
| One (a : A)
| Many (l : list A).
Arguments One {A} a.
Arguments Many {A} l.

Record OnlineResourceT := {
  xlink_href : option string
}.

Record CapabilitiesLegend := {
  OnlineResource : option OnlineResourceT;
  Format : option string
}.

Record CapabilitiesStyle := {
  style_Name : string;
  style_Title : string;
  style_Abstract : option string;
  LegendURL : option (OneOrMany CapabilitiesLegend)
}.

Record CapabilitiesLayer := {
  layer_Name : option string;
  layer_Title : option string;
  layer_Abstract : option string;
  layer_Style : list CapabilitiesStyle;
  layer_BoundingBox : option Rectangle
}.

Record CapabilitiesService := {
  service_Abstract : option string;
  AccessConstraints : option string
}.

(** The document is used through its query interface only: [findLayer],
    [getInheritedValues(layer, 'Style')] and the [Service] member. *)
Record WebMapServiceCapabilities := {
  findLayer : string -> option CapabilitiesLayer;
  getInheritedStyles : CapabilitiesLayer -> list CapabilitiesStyle;
  Service : option CapabilitiesService
}.

(** ** Errors and promises *)

Record TerriaError := {
  title : string;
  message : string
}.

(** A rejection reason is a [TerriaError] or whatever else the loader
    rejected with. *)
Inductive JsError :=
| Terria (e : TerriaError)
| Foreign (description : string).

(** The promise returned by [loadCapabilities]: rejected on the spot, or
    [fromUrl(proxiedUrl).then(onCapabilities)]. *)
Inductive LoadPromise :=
| RejectedNow (reason : JsError)
| Fetching (proxiedUrl : string).

Inductive Settled :=
| Fulfilled
| Rejected (reason : JsError).

(** ** The catalog item *)

(** The [layers] trait is read as a string or as an array of strings. *)
Inductive LayersTrait :=
| LayersString (s : string)
| LayersList (l : list string).

Record GetCapabilitiesStratum := {
  capabilities : option WebMapServiceCapabilities;
  isLoading : bool
}.

(** What the code reads from the item: traits and the stratum.
    [getCapabilitiesUrl] and [getCapabilitiesCacheDuration] are getters of
    mixins that these sources import; the model takes what they yield as
    given and does not derive it from [url]. *)
Record WebMapServiceCatalogItem := {
  url : option string;
  layers : option LayersTrait;
  opacity : option Q;
  show : option bool;
  getCapabilitiesUrl : option string;
  getCapabilitiesCacheDuration : option string;
  stratum : GetCapabilitiesStratum
}.

(** The collaborators that the sources import: the URL proxy, the rectangle
    of a layer, [decodeURIComponent] (which throws a [URIError] on a
    malformed escape sequence) and the round trip of a string through
    [new URI(...).toString()]. *)
Class Collaborators := {
  proxyCatalogItemUrl :
    WebMapServiceCatalogItem -> string -> option string -> string;
  getRectangleFromLayer : CapabilitiesLayer -> option Rectangle;
  decodeURIComponent : string -> option string;
  uriToString : string -> string
}.

(** The realm in which the code runs: the names that [Object.prototype]
    and [Array.prototype] define, apart from ["__proto__"]. *)
Class Realm := {
  inObjectPrototype : string -> bool;
  inArrayPrototype : string -> bool
}.

(** [o[k]] for an object that was made by [{}] and assignments:
    ["__proto__"] reads the prototype, any other name reads the own
    property or else goes up the prototype chain. *)
Definition member {realm : Realm} {X : Type} (k : string)
    (o : JsObject.t X) : JsObject.Member X :=
  if String.eqb k "__proto__"
  then match JsObject.prototype o with
       | Some a => JsObject.Assigned a
       | None => JsObject.Inherited
       end
  else match JsObject.own k o with
       | Some v => JsObject.Assigned v
       | None =>
           match JsObject.prototype o with
           | Some a =>
               if JsObject.array_has_own a k
                  || inArrayPrototype k || inObjectPrototype k
               then JsObject.Inherited
               else JsObject.Absent
           | None =>
               if inObjectPrototype k
               then JsObject.Inherited
               else JsObject.Absent
           end
       end.

Record LegendUrl := {
  legend_url : string;
  legend_mimeType : option string
}.

Record WebMapServiceStyle := {
  wms_name : string;
  wms_title : string;
  wms_abstract : option string;
  wms_legendUrl : option LegendUrl
}.

Definition WebMapServiceStyles := JsObject.t WebMapServiceStyle.

Record InfoSectionTraits := {
  info_name : string;
  info_content : string
}.

(** [static abstractsToIgnore] *)
Definition abstractsToIgnore : list string :=
  ["A compliant implementation of WMS"].

(** Modelled from the spec: [containsAny] (lib/Core/containsAny) is not among
    the sources. The comment on [abstractsToIgnore] says how it is used: "If
    these strings occur anywhere in the Abstract, the Abstract will not be
    used." *)
Definition containsAny (s : string) (possibleStrings : list string) : bool :=
  existsb (fun possible => Js.includes possible s) possibleStrings.

(** [get layersArray()] *)
Definition layersArray (item : WebMapServiceCatalogItem) : list string :=
  match layers item with
  | Some (LayersList l) => l
  | Some (LayersString s) =>
      if Js.truthy (Some s) then Js.split "," s else []
  | None => []
  end.

Section DerivedProperties.
Context {collaborators : Collaborators} {realm : Realm}.

(** [get capabilitiesLayers()] *)
Definition capabilitiesLayers (item : WebMapServiceCatalogItem)
  : Js.Map (option CapabilitiesLayer) :=
  let lookup (name : string) :=
    (name,
     match capabilities (stratum item) with
     | Some c => findLayer c name
     | None => None
     end) in
  Js.of_entries (map lookup (layersArray item)).

(** The legend that the style callback of [availableStyles] selects:
    [isReadOnlyArray(style.LegendURL) ? style.LegendURL[0] : style.LegendURL]. *)
Definition wmsLegendUrl (style : CapabilitiesStyle) : option CapabilitiesLegend :=
  match LegendURL style with
  | Some (Many l) => hd_error l
  | Some (One legend) => Some legend
  | None => None
  end.

(** The [xlink:href] and format that pass the test
    [wmsLegendUrl && wmsLegendUrl.OnlineResource &&
     wmsLegendUrl.OnlineResource['xlink:href']]. *)
Definition legendHref (style : CapabilitiesStyle)
  : option (string * option string) :=
  match wmsLegendUrl style with
  | Some legend =>
      match OnlineResource legend with
      | Some resource =>
          if Js.truthy (xlink_href resource)
          then match xlink_href resource with
               | Some href => Some (href, Format legend)
               | None => None
               end
          else None
      | None => None
      end
  | None => None
  end.

(** The callback [style => {...}] of [availableStyles]; [None] is the
    [URIError] of [decodeURIComponent]. *)
Definition toWebMapServiceStyle (style : CapabilitiesStyle)
  : option WebMapServiceStyle :=
  match legendHref style with
  | Some (href, legendMimeType) =>
      match decodeURIComponent href with
      | Some decoded =>
          Some {| wms_name := style_Name style;
                  wms_title := style_Title style;
                  wms_abstract := style_Abstract style;
                  wms_legendUrl :=
                    Some {| legend_url := uriToString decoded;
                            legend_mimeType := legendMimeType |} |}
      | None => None
      end
  | None =>
      Some {| wms_name := style_Name style;
              wms_title := style_Title style;
              wms_abstract := style_Abstract style;
              wms_legendUrl := None |}
  end.

(** The loop [for (const layerTuple of capabilitiesLayers)] of
    [availableStyles], started from [result]. *)
Fixpoint availableStyles_loop (c : WebMapServiceCapabilities)
    (tuples : list (string * option CapabilitiesLayer))
    (result : WebMapServiceStyles) : option WebMapServiceStyles :=
  match tuples with
  | [] => Some result
  | (layerName, layer) :: rest =>
      let styles :=
        match layer with
        | Some l => getInheritedStyles c l
        | None => []
        end in
      match Js.map_throwing toWebMapServiceStyle styles with
      | Some converted =>
          availableStyles_loop c rest
            (JsObject.set layerName converted result)
      | None => None
      end
  end.

(** [get availableStyles()]; [None] when a callback throws. *)
Definition availableStyles (item : WebMapServiceCatalogItem)
  : option WebMapServiceStyles :=
  match capabilities (stratum item) with
  | None => Some JsObject.empty
  | Some c =>
      availableStyles_loop c (capabilitiesLayers item) JsObject.empty
  end.

(** One iteration of the loop of [info]: the section pushed for [layer], if
    any. [size] is [capabilitiesLayers.size]. *)
Definition dataDescription (size : nat) (layer : option CapabilitiesLayer)
  : option InfoSectionTraits :=
  match layer with
  | None => None
  | Some l =>
      match layer_Abstract l with
      | None => None
      | Some abstract =>
          if negb (Js.truthy (Some abstract))
             || containsAny abstract abstractsToIgnore
          then None
          else
            let suffix :=
              if (size =? 1)%nat then ""
              else (" - " ++ Js.to_template (layer_Title l))%string in
            Some {| info_name := ("Data Description" ++ suffix)%string;
                    info_content := abstract |}
      end
  end.

(** The loop [for (const layer of this.capabilitiesLayers.values())] of
    [info]: the sections pushed, and the final [firstDataDescription]. *)
Fixpoint info_loop (size : nat) (ls : list (option CapabilitiesLayer))
    (firstDataDescription : option string)
  : list InfoSectionTraits * option string :=
  match ls with
  | [] => ([], firstDataDescription)
  | layer :: rest =>
      match dataDescription size layer with
      | None => info_loop size rest firstDataDescription
      | Some traits =>
          let first' :=
            Js.or firstDataDescription (Some (info_content traits)) in
          let '(result, final) := info_loop size rest first' in
          (traits :: result, final)
      end
  end.

(** [/^none$/i.test(s)] *)
Definition is_none_word (s : string) : bool :=
  String.eqb (Js.lower s) "none".

(** The two sections that [info] derives from [capabilities.Service]. *)
Definition serviceSections (service : CapabilitiesService)
    (firstDataDescription : option string) : list InfoSectionTraits :=
  (match service_Abstract service with
   | Some abstract =>
       if Js.truthy (Some abstract)
          && negb (containsAny abstract abstractsToIgnore)
          && negb (match firstDataDescription with
                   | Some first => String.eqb abstract first
                   | None => false
                   end)
       then [{| info_name := "Service Description"; info_content := abstract |}]
       else []
   | None => []
   end)
  ++
  (match AccessConstraints service with
   | Some constraints =>
       if Js.truthy (Some constraints) && negb (is_none_word constraints)
       then [{| info_name := "Access Constraints";
                info_content := constraints |}]
       else []
   | None => []
   end).

(** [get info()] *)
Definition info (item : WebMapServiceCatalogItem) : list InfoSectionTraits :=
  let layersMap := capabilitiesLayers item in
  let '(result, firstDataDescription) :=
    info_loop (Js.size layersMap) (Js.values layersMap) None in
  match capabilities (stratum item) with
  | Some c =>
      match Service c with
      | Some service => result ++ serviceSections service firstDataDescription
      | None => result
      end
  | None => result
  end.

(** [get rectangle()] *)
Definition rectangle (item : WebMapServiceCatalogItem) : option Rectangle :=
  let found := Js.defined (Js.values (capabilitiesLayers item)) in
  match found with
  | first :: _ => getRectangleFromLayer first
  | [] => None
  end.

(** The local function [getLegendUrlsForLayer] of [legendUrls]. What
    [availableStyles[layer]] yields is returned as [[]] when it is undefined
    and mapped when it is an array; on anything else [styles.map] is not a
    function and the call throws a [TypeError], which is [None]. *)
Definition getLegendUrlsForLayer (layer : string)
    (styles : WebMapServiceStyles) : option (list LegendUrl) :=
  match member layer styles with
  | JsObject.Absent => Some []
  | JsObject.Assigned layerStyles =>
      Some (Js.defined (map wms_legendUrl layerStyles))
  | JsObject.Inherited => None
  end.

(** [get legendUrls()]; [None] when reading [availableStyles] or the local
    function throws. *)
Definition legendUrls (item : WebMapServiceCatalogItem)
  : option (list LegendUrl) :=
  match
    Js.map_throwing
      (fun layer =>
         match availableStyles item with
         | Some styles => getLegendUrlsForLayer layer styles
         | None => None
         end)
      (layersArray item)
  with
  | Some a => Some (concat a)
  | None => None
  end.

(** [get currentDiscreteTime()] and [get nextDiscreteTime()] *)
Definition currentDiscreteTime (item : WebMapServiceCatalogItem)
  : option string := None.

Definition nextDiscreteTime (item : WebMapServiceCatalogItem)
  : option string := None.

End DerivedProperties.

(** ** The reactive store

    The observables of one catalog item, the memo table that
    [createTransformer] keeps for [_createImageryProvider], and the
    transaction state of MobX. [ObsRectangle] stands for the computed
    [stratum.rectangle], which a derivation can read like an observable.
    [unobserved] holds the keys of the memo entries that only plain code
    has read, inside the open transaction. *)

Inductive Observable :=
| ObsUrl
| ObsLayers
| ObsOpacity
| ObsShow
| ObsCapabilities
| ObsIsLoading
| ObsRectangle.

Definition Observable_eqb (a b : Observable) : bool :=
  match a, b with
  | ObsUrl, ObsUrl
  | ObsLayers, ObsLayers
  | ObsOpacity, ObsOpacity
  | ObsShow, ObsShow
  | ObsCapabilities, ObsCapabilities
  | ObsIsLoading, ObsIsLoading
  | ObsRectangle, ObsRectangle => true
  | _, _ => false
  end.

(** [static defaultParameters] *)
Record Parameters := {
  transparent : bool;
  format : string;
  exceptions : string;
  styles : string;
  tiled : bool
}.

Definition defaultParameters : Parameters :=
  {| transparent := true;
     format := "image/png";
     exceptions := "application/vnd.ogc.se_xml";
     styles := "";
     tiled := true |}.

(** A [WebMapServiceImageryProvider]: the options it was constructed with,
    and [identity], which tells one constructed object from another. *)
Record ImageryProvider := {
  identity : nat;
  provider_url : string;
  provider_layers : LayersTrait;
  provider_parameters : Parameters;
  maximumLevel : nat;
  provider_rectangle : option Rectangle
}.

Record ImageryParts := {
  imageryProvider : ImageryProvider;
  alpha : option Q;
  parts_show : bool
}.

(** One entry of the transformer's memo table: the value computed for a key
    and the observables that the computation read. MobX drops the value when
    one of them changes. *)
Record Derivation := {
  observing : list Observable;
  value : option ImageryProvider
}.

Record World := {
  item : WebMapServiceCatalogItem;
  transformer : Js.Map Derivation;
  unobserved : list string;
  constructed : nat;
  inBatch : nat;
  stratumChanged : bool;
  observed : list GetCapabilitiesStratum
}.

(** A stateful computation over the store. *)
Definition Action (A : Type) : Type := World -> A * World.

Definition ret {A : Type} (a : A) : Action A := fun w => (a, w).

Definition bind {A B : Type} (m : Action A) (k : A -> Action B) : Action B :=
  fun w => let '(a, w') := m w in k a w'.

Notation "x <- m ;; k" := (bind m (fun x => k))
  (at level 61, m at next level, right associativity).
Notation "m ;; k" := (bind m (fun _ => k))
  (at level 61, right associativity).

Definition exec {A : Type} (m : Action A) (w : World) : World := snd (m w).
Definition eval {A : Type} (m : Action A) (w : World) : A := fst (m w).

(** An assignment to an observable. *)
Inductive Write :=
| SetUrl (v : option string)
| SetLayers (v : option LayersTrait)
| SetOpacity (v : option Q)
| SetShow (v : option bool)
| SetCapabilities (v : option WebMapServiceCapabilities)
| SetIsLoading (v : bool).

Definition written (wr : Write) : Observable :=
  match wr with
  | SetUrl _ => ObsUrl
  | SetLayers _ => ObsLayers
  | SetOpacity _ => ObsOpacity
  | SetShow _ => ObsShow
  | SetCapabilities _ => ObsCapabilities
  | SetIsLoading _ => ObsIsLoading
  end.

Definition option_eqb {A : Type} (eqb : A -> A -> bool) (a b : option A)
  : bool :=
  match a, b with
  | Some x, Some y => eqb x y
  | None, None => true
  | _, _ => false
  end.

Definition LayersTrait_eqb (a b : LayersTrait) : bool :=
  match a, b with
  | LayersString s, LayersString t => String.eqb s t
  | LayersList l, LayersList m =>
      if list_eq_dec string_dec l m then true else false
  | _, _ => false
  end.

(** MobX notifies nobody when the value assigned is the value in place.
    Strings, numbers and booleans are compared by value, an array here by its
    contents, and a capabilities document by identity: a document that
    arrives is never the one in place. *)
Definition changes (wr : Write) (it : WebMapServiceCatalogItem) : bool :=
  match wr with
  | SetUrl v => negb (option_eqb String.eqb v (url it))
  | SetLayers v => negb (option_eqb LayersTrait_eqb v (layers it))
  | SetOpacity v => negb (option_eqb Qeq_bool v (opacity it))
  | SetShow v => negb (option_eqb Bool.eqb v (show it))
  | SetCapabilities v =>
      match v, capabilities (stratum it) with
      | None, None => false
      | _, _ => true
      end
  | SetIsLoading v => negb (Bool.eqb v (isLoading (stratum it)))
  end.

Definition store (wr : Write) (it : WebMapServiceCatalogItem)
  : WebMapServiceCatalogItem :=
  let with_stratum s :=
    {| url := url it; layers := layers it; opacity := opacity it;
       show := show it; getCapabilitiesUrl := getCapabilitiesUrl it;
       getCapabilitiesCacheDuration := getCapabilitiesCacheDuration it;
       stratum := s |} in
  match wr with
  | SetUrl v =>
      {| url := v; layers := layers it; opacity := opacity it;
         show := show it; getCapabilitiesUrl := getCapabilitiesUrl it;
         getCapabilitiesCacheDuration := getCapabilitiesCacheDuration it;
         stratum := stratum it |}
  | SetLayers v =>
      {| url := url it; layers := v; opacity := opacity it;
         show := show it; getCapabilitiesUrl := getCapabilitiesUrl it;
         getCapabilitiesCacheDuration := getCapabilitiesCacheDuration it;
         stratum := stratum it |}
  | SetOpacity v =>
      {| url := url it; layers := layers it; opacity := v;
         show := show it; getCapabilitiesUrl := getCapabilitiesUrl it;
         getCapabilitiesCacheDuration := getCapabilitiesCacheDuration it;
         stratum := stratum it |}
  | SetShow v =>
      {| url := url it; layers := layers it; opacity := opacity it;
         show := v; getCapabilitiesUrl := getCapabilitiesUrl it;
         getCapabilitiesCacheDuration := getCapabilitiesCacheDuration it;
         stratum := stratum it |}
  | SetCapabilities v =>
      with_stratum {| capabilities := v;
                      isLoading := isLoading (stratum it) |}
  | SetIsLoading v =>
      with_stratum {| capabilities := capabilities (stratum it);
                      isLoading := v |}
  end.

Section LoadAndRender.
Context {collaborators : Collaborators}.

Definition reads (o : Observable) (d : Derivation) : bool :=
  existsb (Observable_eqb o) (observing d).

(** The observables that the computed [stratum.rectangle] reads, through
    [capabilitiesLayers] and [layersArray]. *)
Definition rectangle_reads (o : Observable) : bool :=
  match o with
  | ObsCapabilities | ObsLayers => true
  | _ => false
  end.

(** Whether [stratum.rectangle], computed again after a change, is a new
    value for its observers. A [Rectangle] is an object that each
    computation makes anew; [undefined] is the value it was. *)
Definition rectangle_renewed (before after : WebMapServiceCatalogItem)
  : bool :=
  match rectangle before, rectangle after with
  | None, None => false
  | _, _ => true
  end.

(** A memo entry is stale after a write when it read the observable
    written, or read the rectangle and the write renews the rectangle. *)
Definition stale (wr : Write) (before : WebMapServiceCatalogItem)
    (d : Derivation) : bool :=
  reads (written wr) d
  || (reads ObsRectangle d && rectangle_reads (written wr)
      && rectangle_renewed before (store wr before)).

(** The memo entries that survive a write. *)
Definition invalidate (wr : Write) (before : WebMapServiceCatalogItem)
    (memo : Js.Map Derivation) : Js.Map Derivation :=
  filter (fun entry => negb (stale wr before (snd entry))) memo.

Definition of_stratum (o : Observable) : bool :=
  match o with
  | ObsCapabilities | ObsIsLoading => true
  | _ => false
  end.

(** Observers of the stratum run when no transaction is open and one of its
    observables has changed; what they see is appended to [observed]. *)
Definition runReactions (w : World) : World :=
  if stratumChanged w
  then {| item := item w; transformer := transformer w;
          unobserved := unobserved w;
          constructed := constructed w; inBatch := inBatch w;
          stratumChanged := false;
          observed := observed w ++ [stratum (item w)] |}
  else w.

Definition settleBatch (w : World) : World :=
  if (inBatch w =? 0)%nat then runReactions w else w.

Definition assign (wr : Write) : Action unit :=
  fun w =>
    if changes wr (item w)
    then (tt,
          settleBatch
            {| item := store wr (item w);
               transformer := invalidate wr (item w) (transformer w);
               unobserved := unobserved w;
               constructed := constructed w; inBatch := inBatch w;
               stratumChanged :=
                 stratumChanged w || of_stratum (written wr);
               observed := observed w |})
    else (tt, w).

Definition startBatch (w : World) : World :=
  {| item := item w; transformer := transformer w;
     unobserved := unobserved w;
     constructed := constructed w; inBatch := S (inBatch w);
     stratumChanged := stratumChanged w; observed := observed w |}.

(** The memo entries without the keys that nothing observes. *)
Definition forget (keys : list string) (memo : Js.Map Derivation)
  : Js.Map Derivation :=
  filter (fun entry => negb (existsb (String.eqb (fst entry)) keys)) memo.

(** When the outermost transaction has ended, MobX drops the memo entries
    that no derivation observes. *)
Definition releaseUnobserved (w : World) : World :=
  if (inBatch w =? 0)%nat
  then {| item := item w;
          transformer := forget (unobserved w) (transformer w);
          unobserved := [];
          constructed := constructed w; inBatch := inBatch w;
          stratumChanged := stratumChanged w; observed := observed w |}
  else w.

Definition endBatch (w : World) : World :=
  releaseUnobserved
    (settleBatch
       {| item := item w; transformer := transformer w;
          unobserved := unobserved w;
          constructed := constructed w; inBatch := Nat.pred (inBatch w);
          stratumChanged := stratumChanged w; observed := observed w |}).

(** [runInAction(body)] *)
Definition runInAction {A : Type} (body : Action A) : Action A :=
  fun w => let '(a, w') := body (startBatch w) in (a, endBatch w').

(** [this.catalogItem] *)
Definition this : Action WebMapServiceCatalogItem := fun w => (item w, w).

(** How [WebMapServiceCapabilities.fromUrl(url)] settles. *)
Definition Loader : Type := string -> JsError + WebMapServiceCapabilities.

(** ** [GetCapabilitiesStratum.loadCapabilities] *)

Definition missingUrlError : TerriaError :=
  {| title := "Unable to load GetCapabilities";
     message := "Could not load the Web Map Service (WMS) GetCapabilities document because the catalog item does not have a `url`." |}.

Definition loadCapabilities : Action LoadPromise :=
  runInAction (assign (SetIsLoading true) ;;
               assign (SetCapabilities None)) ;;
  catalogItem <- this ;;
  match getCapabilitiesUrl catalogItem with
  | None => ret (RejectedNow (Terria missingUrlError))
  | Some capabilitiesUrl =>
      let proxiedUrl :=
        proxyCatalogItemUrl catalogItem capabilitiesUrl
          (getCapabilitiesCacheDuration catalogItem) in
      ret (Fetching proxiedUrl)
  end.

(** The callback passed to [then]. *)
Definition onCapabilities (c : WebMapServiceCapabilities) : Action unit :=
  runInAction (assign (SetCapabilities (Some c)) ;;
               assign (SetIsLoading false)).

(** The promise settles: a fetch that resolves runs the callback, a fetch
    that rejects passes its reason on, since [then] is given no rejection
    handler. *)
Definition settle (fromUrl : Loader) (promise : LoadPromise)
  : Action Settled :=
  match promise with
  | RejectedNow reason => ret (Rejected reason)
  | Fetching proxiedUrl =>
      match fromUrl proxiedUrl with
      | inr c => onCapabilities c ;; ret Fulfilled
      | inl reason => ret (Rejected reason)
      end
  end.

(** [loadMetadata()] and [loadData()] *)
Definition loadMetadata : Action LoadPromise := loadCapabilities.

Definition loadData : Action LoadPromise := loadMetadata.

(** [await item.loadMetadata()] with nothing else running in between. *)
Definition awaitLoadMetadata (fromUrl : Loader) : Action Settled :=
  promise <- loadMetadata ;; settle fromUrl promise.

(** ** [_createImageryProvider], [mapItems] *)

(** [this.url || ''] *)
Definition url_or_empty (it : WebMapServiceCatalogItem) : string :=
  match Js.or (url it) (Some "") with
  | Some s => s
  | None => ""
  end.

(** [this.layers || '']: an array is truthy, also when empty. *)
Definition layers_or_empty (it : WebMapServiceCatalogItem) : LayersTrait :=
  match layers it with
  | Some (LayersString s) =>
      if Js.truthy (Some s) then LayersString s else LayersString ""
  | Some (LayersList l) => LayersList l
  | None => LayersString ""
  end.

(** Where a getter is read from: from a reaction or a computed value, or
    from plain code. *)
Inductive ReadContext :=
| InDerivation
| PlainCode.

(** Whether MobX tracks a read: it does inside a derivation, and inside an
    open transaction. *)
Definition tracked (ctx : ReadContext) (w : World) : bool :=
  match ctx with
  | InDerivation => true
  | PlainCode => negb (inBatch w =? 0)%nat
  end.

(** [trace()]: it throws outside a tracked derivation; [None] is the
    exception. *)
Definition trace (ctx : ReadContext) : Action (option unit) :=
  fun w => (if tracked ctx w then Some tt else None, w).

(** The body of the transformer: the value for one key, and the observables
    read on the way: [stratum.isLoading] and, when that is false, [this.url],
    [this.layers] and the computed [stratum.rectangle]. *)
Definition buildImageryProvider (freshIdentity : nat)
    (it : WebMapServiceCatalogItem) : Derivation :=
  if isLoading (stratum it)
  then {| observing := [ObsIsLoading]; value := None |}
  else {| observing := [ObsIsLoading; ObsUrl; ObsLayers; ObsRectangle];
          value :=
            Some {| identity := freshIdentity;
                    provider_url := url_or_empty it;
                    provider_layers := layers_or_empty it;
                    provider_parameters := defaultParameters;
                    maximumLevel := 20;
                    provider_rectangle := rectangle it |} |}.

(** The keys that nothing observes, once a derivation has read [time]. *)
Definition observe (time : string) (keys : list string) : list string :=
  filter (fun k => negb (String.eqb k time)) keys.

(** [_createImageryProvider = createTransformer(time => ...)]. A key whose
    value is in the memo table gets that value; any other key runs the
    body. The result is recorded only when the read is tracked: an entry
    lives as long as something observes it. The model takes the derivations
    that read to stay alive; what only plain code has read, inside a
    transaction, is observed until that transaction ends. *)
Definition _createImageryProvider (ctx : ReadContext) (time : string)
  : Action (option ImageryProvider) :=
  fun w =>
    match Js.get time (transformer w) with
    | Some memoized =>
        (value memoized,
         match ctx with
         | InDerivation =>
             {| item := item w; transformer := transformer w;
                unobserved := observe time (unobserved w);
                constructed := constructed w; inBatch := inBatch w;
                stratumChanged := stratumChanged w;
                observed := observed w |}
         | PlainCode => w
         end)
    | None =>
        let d := buildImageryProvider (constructed w) (item w) in
        (value d,
         {| item := item w;
            transformer :=
              if tracked ctx w then Js.set time d (transformer w)
              else transformer w;
            unobserved :=
              match ctx with
              | InDerivation => observe time (unobserved w)
              | PlainCode =>
                  if tracked ctx w then time :: unobserved w
                  else unobserved w
              end;
            constructed :=
              match value d with
              | Some _ => S (constructed w)
              | None => constructed w
              end;
            inBatch := inBatch w; stratumChanged := stratumChanged w;
            observed := observed w |})
    end.

(** [get _currentImageryParts()]; the outer [None] is the exception of
    [trace()]. *)
Definition _currentImageryParts (ctx : ReadContext)
  : Action (option (option ImageryParts)) :=
  traced <- trace ctx ;;
  match traced with
  | None => ret None
  | Some _ =>
      it <- this ;;
      let time :=
        match Js.or (currentDiscreteTime it) (Some "now") with
        | Some t => t
        | None => "now"
        end in
      provider <- _createImageryProvider ctx time ;;
      match provider with
      | None => ret (Some None)
      | Some p =>
          ret (Some (Some {| imageryProvider := p;
                             alpha := opacity it;
                             parts_show :=
                               match show it with
                               | Some b => b
                               | None => true
                               end |}))
      end
  end.

(** [get _nextImageryParts()] *)
Definition _nextImageryParts (ctx : ReadContext)
  : Action (option (option ImageryParts)) :=
  traced <- trace ctx ;;
  match traced with
  | None => ret None
  | Some _ =>
      it <- this ;;
      if Js.truthy (nextDiscreteTime it)
      then
        match nextDiscreteTime it with
        | Some time =>
            provider <- _createImageryProvider ctx time ;;
            match provider with
            | None => ret (Some None)
            | Some p =>
                ret (Some (Some {| imageryProvider := p;
                                   alpha := Some (0 # 1)%Q;
                                   parts_show := true |}))
            end
        | None => ret (Some None)
        end
      else ret (Some None)
  end.

(** [get mapItems()]; [None] is the exception of a [trace()]. *)
Definition mapItems (ctx : ReadContext)
  : Action (option (list ImageryParts)) :=
  traced <- trace ctx ;;
  match traced with
  | None => ret None
  | Some _ =>
      current <- _currentImageryParts ctx ;;
      match current with
      | None => ret None
      | Some current =>
          next <- _nextImageryParts ctx ;;
          match next with
          | None => ret None
          | Some next =>
              ret (Some (match current with Some c => [c] | None => [] end
                         ++ match next with Some n => [n] | None => [] end))
          end
      end
  end.

(** ** What can happen to an item *)

(** The item as its constructor leaves it: [capabilities] undefined,
    [isLoading] false, nothing memoized, nothing observed. *)
Definition freshStratum : GetCapabilitiesStratum :=
  {| capabilities := None; isLoading := false |}.


(** The events of the single-threaded run: a call of [loadMetadata], a fetch
    that settles (its callback runs, or nothing runs), a reaction that reads
    [mapItems], and an assignment to one of the traits. *)
Inductive Event :=
| CallLoad
| FetchResolved (c : WebMapServiceCapabilities)
| FetchRejected (reason : JsError)
| ReadMapItems
| Edit (wr : Write).

Definition edits_trait (wr : Write) : bool := negb (of_stratum (written wr)).

Definition handle (w : World) (e : Event) : World :=
  match e with
  | CallLoad => exec loadMetadata w
  | FetchResolved c => exec (onCapabilities c) w
  | FetchRejected _ => w
  | ReadMapItems => exec (mapItems InDerivation) w
  | Edit wr => if edits_trait wr then exec (assign wr) w else w
  end.

Definition run (events : list Event) (w : World) : World :=
  fold_left handle events w.

(** The memo table agrees with the store: every entry is what the body of
    the transformer yields on the item as it is, for an identity handed out
    earlier. *)
Definition coherent (w : World) : Prop :=
  forall time d,
    In (time, d) (transformer w) ->
    exists n,
      d = buildImageryProvider n (item w) /\
      (forall p, value d = Some p -> identity p < constructed w).

(** Nothing is in flight inside MobX: no transaction is open and every
    change has been shown to the observers. *)
Definition quiescent (w : World) : Prop :=
  inBatch w = 0 /\ stratumChanged w = false.

(** A snapshot in which a payload is defined only when no load is marked
    as running. *)
Definition settled_or_cleared (s : GetCapabilitiesStratum) : Prop :=
  isLoading s = true -> capabilities s = None.

End LoadAndRender.

(** ** Trait schemas: [mixGroupTraits] *)

Inductive TraitType :=
| PrimitiveTrait (type : string)
| ModelReferenceArrayTrait (factory : string).

Record TraitDefinition := {
  trait_name : string;
  trait_description : string;
  trait_type : TraitType
}.

(** Modelled from the spec: the schema class behind [ModelTraits.Constructor]
    is not among the sources. The spec describes a schema as "an ordered,
    named set of TraitDefinitions, built incrementally by mixin composition":
    a map from property name to definition that keeps the order in which the
    names were first declared. *)
Definition ModelTraits : Type := Js.Map TraitDefinition.

(** Modelled from the spec: the decorators [primitiveTrait] and
    [modelReferenceArrayTrait] are not among the sources. A decorated
    property is "attached to a schema class at definition time": the
    definition is recorded under the property's name, and a subclass that
    declares a name of its base again replaces the definition of that name. *)
Definition primitiveTrait (name description type : string)
    (propertyKey : string) (schema : ModelTraits) : ModelTraits :=
  Js.set propertyKey
    {| trait_name := name; trait_description := description;
       trait_type := PrimitiveTrait type |} schema.

Definition modelReferenceArrayTrait (name description factory : string)
    (propertyKey : string) (schema : ModelTraits) : ModelTraits :=
  Js.set propertyKey
    {| trait_name := name; trait_description := description;
       trait_type := ModelReferenceArrayTrait factory |} schema.

(** [mixGroupTraits(Base)]: [class GroupTraits extends Base] with the two
    decorated properties, decorated in the order of their declaration. *)
Definition mixGroupTraits (Base : ModelTraits) : ModelTraits :=
  let GroupTraits := Base in
  let GroupTraits :=
    primitiveTrait "Is Open"
      "True if this group is open and its contents are visible; otherwise, false."
      "boolean" "isOpen" GroupTraits in
  modelReferenceArrayTrait "Members" "The members of this group."
    "CatalogMemberFactory" "members" GroupTraits.

(** The recognized property names of a schema, in order. *)
Definition properties (schema : ModelTraits) : list string := Js.keys schema.

Definition strict_superset (big small : list string) : Prop :=
  incl small big /\ ~ incl big small.

(** ** Sample data *)

(** The schema of a group: the group traits mixed into the empty schema. *)
Definition groupSchema : ModelTraits := mixGroupTraits [].

Definition hex_digit (c : ascii) : option nat :=
  let n := nat_of_ascii c in
  if (48 <=? n)%nat && (n <=? 57)%nat then Some (n - 48)
  else if (65 <=? n)%nat && (n <=? 70)%nat then Some (n - 55)
  else if (97 <=? n)%nat && (n <=? 102)%nat then Some (n - 87)
  else None.

(** A stand-in for [decodeURIComponent] on the escapes of ASCII characters;
    it throws on every other escape. *)
Fixpoint decodeAscii (s : string) : option string :=
  match s with
  | EmptyString => Some EmptyString
  | String "%" (String h ((String l rest) as tail)) =>
      match hex_digit h, hex_digit l with
      | Some a, Some b =>
          if (a <? 8)%nat
          then match decodeAscii rest with
               | Some decoded => Some (String (ascii_of_nat (16 * a + b)) decoded)
               | None => None
               end
          else None
      | _, _ => None
      end
  | String "%" _ => None
  | String c rest =>
      match decodeAscii rest with
      | Some decoded => Some (String c decoded)
      | None => None
      end
  end.

(** The names that [Object.prototype] and [Array.prototype] define in a
    current browser. *)
Definition sampleRealm : Realm :=
  {| inObjectPrototype := fun k =>
       existsb (String.eqb k)
         ["constructor"; "toString"; "toLocaleString"; "valueOf";
          "hasOwnProperty"; "isPrototypeOf"; "propertyIsEnumerable";
          "__defineGetter__"; "__defineSetter__"; "__lookupGetter__";
          "__lookupSetter__"];
     inArrayPrototype := fun k =>
       existsb (String.eqb k)
         ["concat"; "copyWithin"; "entries"; "every"; "fill"; "filter";
          "find"; "findIndex"; "flat"; "flatMap"; "forEach"; "includes";
          "indexOf"; "join"; "keys"; "lastIndexOf"; "map"; "pop"; "push";
          "reduce"; "reduceRight"; "reverse"; "shift"; "slice"; "some";
          "sort"; "splice"; "unshift"; "values"] |}.

Definition sampleCollaborators : Collaborators :=
  {| proxyCatalogItemUrl := fun _ rawUrl _ => ("proxy/" ++ rawUrl)%string;
     getRectangleFromLayer := layer_BoundingBox;
     decodeURIComponent := decodeAscii;
     uriToString := fun s => s |}.

Definition plainStyle : CapabilitiesStyle :=
  {| style_Name := "default"; style_Title := "Default";
     style_Abstract := None; LegendURL := None |}.

Definition legendStyle : CapabilitiesStyle :=
  {| style_Name := "rain"; style_Title := "Rain";
     style_Abstract := None;
     LegendURL :=
       Some (One {| OnlineResource :=
                      Some {| xlink_href :=
                                Some "http://example.com/legend%20rain.png" |};
                    Format := Some "image/png" |}) |}.

Definition precipitationLayer : CapabilitiesLayer :=
  {| layer_Name := Some "precipitation";
     layer_Title := Some "Precipitation";
     layer_Abstract := Some "Daily rainfall";
     layer_Style := [plainStyle; legendStyle];
     layer_BoundingBox :=
       Some {| west := (110 # 1)%Q; south := (-45 # 1)%Q;
               east := (155 # 1)%Q; north := (-10 # 1)%Q |} |}.

Definition stockLayer : CapabilitiesLayer :=
  {| layer_Name := Some "stock";
     layer_Title := Some "Stock";
     layer_Abstract :=
       Some "A compliant implementation of WMS plus most of the SLD extension";
     layer_Style := [];
     layer_BoundingBox := None |}.

(** A flat document: layers are found by name and inherit nothing. *)
Definition documentOf (ls : list CapabilitiesLayer)
  : WebMapServiceCapabilities :=
  {| findLayer := fun name =>
       find (fun l => option_eqb String.eqb (layer_Name l) (Some name)) ls;
     getInheritedStyles := layer_Style;
     Service := Some {| service_Abstract := Some "Weather maps";
                        AccessConstraints := Some "NONE" |} |}.

Definition sampleDocument : WebMapServiceCapabilities :=
  documentOf [precipitationLayer; stockLayer].

Definition sampleItem (l : option LayersTrait)
    (capabilitiesUrl : option string) (s : GetCapabilitiesStratum)
  : WebMapServiceCatalogItem :=
  {| url := Some "http://example.com/wms"; layers := l;
     opacity := Some (8 # 10)%Q; show := Some true;
     getCapabilitiesUrl := capabilitiesUrl;
     getCapabilitiesCacheDuration := None;
     stratum := s |}.

Definition worldOf (it : WebMapServiceCatalogItem) : World :=
  {| item := it; transformer := []; unobserved := []; constructed := 0;
     inBatch := 0; stratumChanged := false; observed := [] |}.

Definition failingLoader : Loader :=
  fun _ => inl (Foreign "network error").

Definition sampleLoader : Loader := fun _ => inr sampleDocument.

Definition loadedStratum : GetCapabilitiesStratum :=
  {| capabilities := Some sampleDocument; isLoading := false |}.

Definition sampleCapabilitiesUrl : string :=
  "http://example.com/wms?service=WMS&version=1.3.0&request=GetCapabilities".

(** A newly constructed item without a URL. *)
Definition itemWithoutUrl : WebMapServiceCatalogItem :=
  {| url := None; layers := Some (LayersString "precipitation");
     opacity := Some (8 # 10)%Q; show := Some true;
     getCapabilitiesUrl := None; getCapabilitiesCacheDuration := None;
     stratum := freshStratum |}.

(** A newly constructed item with a URL. *)
Definition itemWithUrl : WebMapServiceCatalogItem :=
  sampleItem (Some (LayersString "precipitation"))
    (Some sampleCapabilitiesUrl) freshStratum.

(** Items whose capabilities have been loaded. *)
Definition precipitationItem : WebMapServiceCatalogItem :=
  sampleItem (Some (LayersString "precipitation"))
    (Some sampleCapabilitiesUrl) loadedStratum.

Definition stockItem : WebMapServiceCatalogItem :=
  sampleItem (Some (LayersString "stock"))
    (Some sampleCapabilitiesUrl) loadedStratum.

Definition twoLayerItem : WebMapServiceCatalogItem :=
  sampleItem (Some (LayersString "missing,precipitation,stock"))
    (Some sampleCapabilitiesUrl) loadedStratum.

(** The loaded item after a reaction has read its map items. *)
Definition renderedWorld : World :=
  exec (mapItems (collaborators := sampleCollaborators) InDerivation)
       (worldOf precipitationItem).


(** ** More of the catalog item *)

(** The names of a list, each once, in the order of their first occurrence:
    the order in which a [Map] built from the list iterates. *)
Definition first_occurrences (names : list string) : list string :=
  fold_left
    (fun seen name =>
       if existsb (String.eqb name) seen then seen else seen ++ [name])
    names [].

Section StyleLegends.
Context {collaborators : Collaborators}.

(** The legend URLs that one style of the document contributes to
    [legendUrls]: that of the converted style, if it has one. *)
Definition styleLegends (style : CapabilitiesStyle) : list LegendUrl :=
  match toWebMapServiceStyle style with
  | Some converted =>
      match wms_legendUrl converted with
      | Some legend => [legend]
      | None => []
      end
  | None => []
  end.

(** The legend URLs of the styles that the layer called [name] has in the
    document [c]. *)
Definition layerLegends (c : WebMapServiceCapabilities) (name : string)
  : list LegendUrl :=
  match findLayer c name with
  | Some l => flat_map styleLegends (getInheritedStyles c l)
  | None => []
  end.

End StyleLegends.

(** [array.indexOf(x)]; [None] stands for -1. *)
Fixpoint indexOf (x : string) (array : list string) : option nat :=
  match array with
  | [] => None
  | y :: rest =>
      if String.eqb y x then Some 0
      else match indexOf x rest with
           | Some i => Some (S i)
           | None => None
           end
  end.

(** [Service.KeywordList]: its [Keyword] member is a string or an array of
    strings. *)
Record KeywordListT := {
  Keyword : option (OneOrMany string)
}.

Section GeoServer.
(** The [KeywordList] member of the service of a document. *)
Variable KeywordList : CapabilitiesService -> option KeywordListT.

(** [get isGeoServer()] *)
Definition isGeoServer (it : WebMapServiceCatalogItem) : option bool :=
  match capabilities (stratum it) with
  | None => None
  | Some c =>
      match Service c with
      | None => Some false
      | Some service =>
          match KeywordList service with
          | None => Some false
          | Some keywords =>
              match Keyword keywords with
              | None => Some false
              | Some (One keyword) =>
                  if Js.truthy (Some keyword)
                  then Some (String.eqb keyword "GEOSERVER")
                  else Some false
              | Some (Many keyword) =>
                  Some (match indexOf "GEOSERVER" keyword with
                        | Some _ => true
                        | None => false
                        end)
              end
          end
      end
  end.

End GeoServer.

(** An event that runs the callback of a resolved fetch. *)
Definition resolves (e : Event) : bool :=
  match e with
  | FetchResolved _ => true
  | _ => false
  end.

(** The number of occurrences of a character in a string. *)
Fixpoint count_char (c : ascii) (s : string) : nat :=
  match s with
  | EmptyString => 0
  | String d rest =>
      (if Ascii.eqb d c then 1 else 0) + count_char c rest
  end.

(** ** [MobileModalWindow] *)

Record MobileViewOptions := {
  option_search : string;
  option_data : string;
  option_preview : string;
  option_nowViewing : string
}.

(** [props.viewState]; [mobileView] is [null] or one of the option values. *)
Record ViewState := {
  mobileView : option string;
  mobileViewOptions : MobileViewOptions;
  modalVisible : bool
}.

(** [props]: the view state and [terria.nowViewing.items]. *)
Record Props := {
  viewState : ViewState;
  nowViewing_items : list string
}.

(** The component that a modal content wraps. *)
Inductive Panel :=
| MobileSearch
| DataCatalogTab
| DataPreview
| NowViewingContainer.

(** [<div className=...><Panel .../></div>] *)
Record ModalContent := {
  content_className : string;
  content_panel : Panel
}.

(** [mobileView === choice] *)
Definition is_view (view : option string) (choice : string) : bool :=
  match view with
  | Some v => String.eqb v choice
  | None => false
  end.

(** [renderModalContent()]: the cases of the [switch] in their order. *)
Definition renderModalContent (props : Props) : option ModalContent :=
  let view := mobileView (viewState props) in
  let options := mobileViewOptions (viewState props) in
  if is_view view (option_search options)
  then Some {| content_className := "modal--mobile-bg search";
               content_panel := MobileSearch |}
  else if is_view view (option_data options)
  then Some {| content_className := "modal--mobile-bg";
               content_panel := DataCatalogTab |}
  else if is_view view (option_preview options)
  then Some {| content_className := "modal--mobile-bg";
               content_panel := DataPreview |}
  else if is_view view (option_nowViewing options)
  then Some {| content_className := "modal--mobile-bg";
               content_panel := NowViewingContainer |}
  else None.

(** The calls that the component makes on the view state. *)
Inductive ViewStateCall :=
| SwitchMobileView (view : option string)
| ToggleModal (visible : bool).

(** [onClearMobileUI()] *)
Definition onClearMobileUI : list ViewStateCall :=
  [SwitchMobileView None; ToggleModal false].

(** [componentWillReceiveProps()]: it reads [this.props]. *)
Definition componentWillReceiveProps (props : Props) : list ViewStateCall :=
  if (length (nowViewing_items props) =? 0)%nat
     && is_view (mobileView (viewState props))
                (option_nowViewing (mobileViewOptions (viewState props)))
  then [SwitchMobileView None; ToggleModal false]
  else [].

(** What [render()] returns: the class of the outer [div], the modal
    content, and whether the Done button is there. *)
Record Rendered := {
  rendered_className : string;
  rendered_content : option ModalContent;
  rendered_done : bool
}.

(** [render()]; [modalVisible && mobileView] is truthy when the modal is
    visible and the view is a non-empty string. *)
Definition render (props : Props) : Rendered :=
  let isOpen :=
    modalVisible (viewState props)
    && Js.truthy (mobileView (viewState props)) in
  {| rendered_className :=
       if isOpen then "modal--mobile is-open" else "modal--mobile";
     rendered_content := renderModalContent props;
     rendered_done := isOpen |}.

(** The option value that stands for a panel. *)
Definition option_of (options : MobileViewOptions) (p : Panel) : string :=
  match p with
  | MobileSearch => option_search options
  | DataCatalogTab => option_data options
  | DataPreview => option_preview options
  | NowViewingContainer => option_nowViewing options
  end.

(** ** More sample data *)

Definition sampleOptions : MobileViewOptions :=
  {| option_search := "search"; option_data := "data";
     option_preview := "preview"; option_nowViewing := "nowViewing" |}.

Definition previewProps : Props :=
  {| viewState := {| mobileView := Some "preview";
                     mobileViewOptions := sampleOptions;
                     modalVisible := true |};
     nowViewing_items := [] |}.

Definition strayProps : Props :=
  {| viewState := {| mobileView := Some "settings";
                     mobileViewOptions := sampleOptions;
                     modalVisible := true |};
     nowViewing_items := [] |}.

(** A document whose second style carries an escape that does not decode. *)
Definition brokenStyle : CapabilitiesStyle :=
  {| style_Name := "broken"; style_Title := "Broken";
     style_Abstract := None;
     LegendURL :=
       Some (Many [{| OnlineResource :=
                        Some {| xlink_href :=
                                  Some "http://example.com/l%E9gende.png" |};
                      Format := Some "image/png" |}]) |}.

Definition brokenLayer : CapabilitiesLayer :=
  {| layer_Name := Some "broken";
     layer_Title := Some "Broken";
     layer_Abstract := Some "Weather maps";
     layer_Style := [plainStyle; brokenStyle];
     layer_BoundingBox := None |}.

Definition brokenDocument : WebMapServiceCapabilities :=
  documentOf [precipitationLayer; brokenLayer].

Definition brokenItem : WebMapServiceCatalogItem :=
  sampleItem (Some (LayersString "precipitation,broken"))
    (Some sampleCapabilitiesUrl)
    {| capabilities := Some brokenDocument; isLoading := false |}.

Definition repeatedItem : WebMapServiceCatalogItem :=
  sampleItem (Some (LayersString "precipitation,stock,precipitation"))
    (Some sampleCapabilitiesUrl) loadedStratum.

Definition sampleKeywordList (service : CapabilitiesService)
  : option KeywordListT :=
  Some {| Keyword := Some (Many ["WMS"; "GEOSERVER"]) |}.

(** * Properties *)

(** ** Strings and maps *)

Lemma split_nonempty (sep : ascii) (s : string) : Js.split sep s <> [].
Proof.
  induction s as [|c rest IH]; simpl; [discriminate|].
  destruct (Ascii.eqb c sep); [discriminate|].
  destruct (Js.split sep rest); discriminate.
Qed.

Lemma join_split (sep : ascii) (s : string) :
  Js.join sep (Js.split sep s) = s.
Proof.
  induction s as [|c rest IH]; [reflexivity|].
  pose proof (split_nonempty sep rest) as Hn.
  cbn [Js.split].
  destruct (Ascii.eqb_spec c sep) as [->|Hne];
    destruct (Js.split sep rest) as [|p ps]; try contradiction.
  - cbn [Js.join] in *. rewrite IH. reflexivity.
  - destruct ps as [|q qs]; cbn [Js.join] in *; rewrite <- IH; reflexivity.
Qed.

Lemma split_pieces_free (sep : ascii) (s : string) :
  Forall (fun piece => Js.mem_char sep piece = false) (Js.split sep s).
Proof.
  induction s as [|c rest IH]; cbn [Js.split].
  - repeat constructor.
  - destruct (Ascii.eqb_spec c sep) as [->|Hne].
    + constructor; [reflexivity|exact IH].
    + destruct (Js.split sep rest) as [|p ps].
      * constructor; [|constructor]. cbn.
        destruct (Ascii.eqb_spec c sep); [contradiction|reflexivity].
      * inversion IH as [|? ? Hp Hps]; subst.
        constructor; [|exact Hps]. cbn.
        destruct (Ascii.eqb_spec c sep); [contradiction|exact Hp].
Qed.

Lemma prefix_app (needle post : string) :
  String.prefix needle (needle ++ post) = true.
Proof.
  induction needle as [|c rest IH]; cbn; [destruct post; reflexivity|].
  destruct (ascii_dec c c); [exact IH|contradiction].
Qed.

Lemma includes_app (needle pre post : string) :
  Js.includes needle (pre ++ needle ++ post) = true.
Proof.
  induction pre as [|c rest IH].
  - cbn [String.append]. pose proof (prefix_app needle post) as H.
    destruct (needle ++ post)%string; cbn [Js.includes]; rewrite H;
      reflexivity.
  - cbn [String.append Js.includes]. rewrite IH. apply orb_true_r.
Qed.

Lemma set_absent {V : Type} (k : string) (v : V) (m : Js.Map V) :
  Js.get k m = None -> Js.set k v m = m ++ [(k, v)].
Proof.
  induction m as [|[k' v'] rest IH]; cbn; [reflexivity|].
  destruct (String.eqb k' k); [discriminate|].
  intros H. rewrite (IH H). reflexivity.
Qed.

Lemma set_present {V : Type} (k : string) (v : V) (m : Js.Map V) :
  Js.get k m = Some v -> Js.set k v m = m.
Proof.
  induction m as [|[k' v'] rest IH]; cbn; [discriminate|].
  destruct (String.eqb k' k).
  - intros [= ->]. reflexivity.
  - intros H. rewrite (IH H). reflexivity.
Qed.

Lemma get_set_same {V : Type} (k : string) (v : V) (m : Js.Map V) :
  Js.get k (Js.set k v m) = Some v.
Proof.
  induction m as [|[k' v'] rest IH]; cbn.
  - rewrite String.eqb_refl. reflexivity.
  - destruct (String.eqb k' k) eqn:E; cbn; rewrite E; [reflexivity|exact IH].
Qed.

Lemma get_set_other {V : Type} (k k' : string) (v : V) (m : Js.Map V) :
  k' <> k -> Js.get k' (Js.set k v m) = Js.get k' m.
Proof.
  intros Hne.
  induction m as [|[k0 v0] rest IH]; cbn.
  - destruct (String.eqb_spec k k'); [congruence|reflexivity].
  - destruct (String.eqb_spec k0 k) as [->|Hk]; cbn.
    + destruct (String.eqb_spec k k'); [congruence|reflexivity].
    + destruct (String.eqb k0 k'); [reflexivity|exact IH].
Qed.

Lemma keys_set {V : Type} (k : string) (v : V) (m : Js.Map V) :
  Js.keys (Js.set k v m) =
  if existsb (String.eqb k) (Js.keys m) then Js.keys m else Js.keys m ++ [k].
Proof.
  induction m as [|[k0 v0] rest IH]; cbn; [reflexivity|].
  rewrite (String.eqb_sym k k0).
  destruct (String.eqb k0 k) eqn:E; cbn; [reflexivity|].
  unfold Js.keys in IH. rewrite IH.
  destruct (existsb (String.eqb k) (map fst rest)); reflexivity.
Qed.

Lemma defined_app {A : Type} (xs ys : list (option A)) :
  Js.defined (xs ++ ys) = Js.defined xs ++ Js.defined ys.
Proof.
  induction xs as [|[x|] rest IH]; cbn; [reflexivity| |exact IH].
  rewrite IH. reflexivity.
Qed.

(** The first defined value of a map built from the pairs [(name, f name)]
    is the first defined [f name] in the order of the names, whatever names
    are repeated. *)
Lemma first_defined_fold {A : Type} (f : string -> option A)
    (names : list string) (acc : Js.Map (option A)) :
  (forall k v, Js.get k acc = Some v -> v = f k) ->
  hd_error (Js.defined (Js.values
    (fold_left (fun m kv => Js.set (fst kv) (snd kv) m)
               (map (fun name => (name, f name)) names) acc))) =
  match hd_error (Js.defined (Js.values acc)) with
  | Some x => Some x
  | None => hd_error (Js.defined (map f names))
  end.
Proof.
  revert acc.
  induction names as [|n ns IH]; intros acc Hacc; cbn [map fold_left fst snd].
  - cbn. destruct (hd_error _); reflexivity.
  - rewrite IH.
    + destruct (Js.get n acc) as [v|] eqn:Hget.
      * pose proof (Hacc _ _ Hget) as ->.
        rewrite (set_present _ _ _ Hget).
        destruct (hd_error (Js.defined (Js.values acc))) eqn:Hhd;
          [reflexivity|].
        cbn [map Js.defined].
        destruct (f n) as [x|] eqn:Hfn; [|reflexivity].
        exfalso. clear -Hget Hhd.
        induction acc as [|[k' v'] rest IHa]; cbn in *; [discriminate|].
        destruct (String.eqb k' n).
        -- injection Hget as ->. cbn in Hhd. discriminate.
        -- destruct v'; cbn in Hhd; [discriminate|]. exact (IHa Hget Hhd).
      * rewrite (set_absent _ _ _ Hget).
        unfold Js.values. rewrite map_app, defined_app. cbn [map snd].
        destruct (Js.defined (map snd acc)) as [|x xs]; cbn [app hd_error].
        -- cbn [Js.defined]. destruct (f n); reflexivity.
        -- reflexivity.
    + intros k v Hk.
      destruct (String.eqb_spec n k) as [->|Hne].
      * rewrite get_set_same in Hk. congruence.
      * rewrite get_set_other in Hk by congruence. exact (Hacc _ _ Hk).
Qed.

(** ** Plain objects *)

Lemma get_insert_indexed_same {X : Type} (i : N) (k : string) (v : list X)
    (m : list (string * list X)) :
  Js.get k (JsObject.insert_indexed i k v m) = Some v.
Proof.
  induction m as [|[k' v'] rest IH]; cbn [JsObject.insert_indexed Js.get].
  - rewrite String.eqb_refl. reflexivity.
  - destruct (String.eqb k' k) eqn:E.
    + cbn [Js.get]. rewrite String.eqb_refl. reflexivity.
    + destruct (JsObject.array_index k') as [j|].
      * destruct (i <? j)%N; cbn [Js.get].
        -- rewrite String.eqb_refl. reflexivity.
        -- rewrite E. exact IH.
      * cbn [Js.get]. rewrite String.eqb_refl. reflexivity.
Qed.

Lemma get_insert_indexed_other {X : Type} (i : N) (k n : string)
    (v : list X) (m : list (string * list X)) :
  n <> k ->
  Js.get n (JsObject.insert_indexed i k v m) = Js.get n m.
Proof.
  intros Hne.
  assert (Hk : String.eqb k n = false) by (apply String.eqb_neq; congruence).
  induction m as [|[k' v'] rest IH]; cbn [JsObject.insert_indexed Js.get].
  - rewrite Hk. reflexivity.
  - destruct (String.eqb_spec k' k) as [->|Hd].
    + cbn [Js.get]. rewrite Hk. reflexivity.
    + destruct (JsObject.array_index k') as [j|].
      * destruct (i <? j)%N; cbn [Js.get].
        -- rewrite Hk. reflexivity.
        -- destruct (String.eqb k' n); [reflexivity|exact IH].
      * cbn [Js.get]. rewrite Hk. reflexivity.
Qed.

Lemma own_set_same {X : Type} (k : string) (v : list X) (o : JsObject.t X) :
  k <> "__proto__" -> JsObject.own k (JsObject.set k v o) = Some v.
Proof.
  intros Hk. unfold JsObject.set, JsObject.own.
  destruct (String.eqb_spec k "__proto__"); [contradiction|].
  destruct (JsObject.array_index k) as [i|]; cbn [JsObject.indexed
    JsObject.named].
  - apply get_insert_indexed_same.
  - apply get_set_same.
Qed.

Lemma own_set_other {X : Type} (k n : string) (v : list X)
    (o : JsObject.t X) :
  n <> k -> JsObject.own n (JsObject.set k v o) = JsObject.own n o.
Proof.
  intros Hne. unfold JsObject.set, JsObject.own.
  destruct (String.eqb k "__proto__"); [reflexivity|].
  destruct (JsObject.array_index k) as [i|];
    cbn [JsObject.indexed JsObject.named];
    destruct (JsObject.array_index n) as [j|]; try reflexivity.
  - apply get_insert_indexed_other. exact Hne.
  - apply get_set_other. exact Hne.
Qed.

Lemma prototype_set_other {X : Type} (k : string) (v : list X)
    (o : JsObject.t X) :
  k <> "__proto__" ->
  JsObject.prototype (JsObject.set k v o) = JsObject.prototype o.
Proof.
  intros Hk. unfold JsObject.set.
  destruct (String.eqb_spec k "__proto__"); [contradiction|].
  destruct (JsObject.array_index k); reflexivity.
Qed.

Section PlainObjectFacts.
Context {realm : Realm}.

(** A name that has been assigned reads back the array assigned. *)
Lemma member_set_same {X : Type} (k : string) (v : list X)
    (o : JsObject.t X) :
  member k (JsObject.set k v o) = JsObject.Assigned v.
Proof.
  unfold member. destruct (String.eqb_spec k "__proto__") as [->|Hk].
  - reflexivity.
  - rewrite (own_set_same k v o Hk). reflexivity.
Qed.

(** An assignment to another name leaves what was assigned in place. *)
Lemma member_set_other {X : Type} (k n : string) (v cv : list X)
    (o : JsObject.t X) :
  n <> k ->
  member n o = JsObject.Assigned cv ->
  member n (JsObject.set k v o) = JsObject.Assigned cv.
Proof.
  intros Hne. unfold member.
  destruct (String.eqb_spec n "__proto__") as [->|Hn].
  - rewrite prototype_set_other by congruence. exact (fun H => H).
  - rewrite (own_set_other k n v o Hne).
    destruct (JsObject.own n o) as [x|]; [exact (fun H => H)|].
    destruct (JsObject.prototype o) as [a|].
    + destruct (_ || _); discriminate.
    + destruct (inObjectPrototype n); discriminate.
Qed.

End PlainObjectFacts.

(** ** The selected layers *)

(** C10. [layersArray] is the [layers] value itself when that is an array,
    the pieces between the commas when it is a non-empty string (joining
    them with commas gives the string back, and no piece holds a comma), and
    the empty array when it is undefined or the empty string. The function
    is total: reading it never fails. *)
Theorem layersArray_cases (it : WebMapServiceCatalogItem) :
  match layers it with
  | Some (LayersList l) => layersArray it = l
  | Some (LayersString s) =>
      if String.eqb s ""
      then layersArray it = []
      else layersArray it = Js.split "," s /\
           Js.join "," (layersArray it) = s /\
           Forall (fun piece => Js.mem_char "," piece = false)
                  (layersArray it) /\
           layersArray it <> []
  | None => layersArray it = []
  end.
Proof.
  unfold layersArray.
  destruct (layers it) as [[s|l]|]; try reflexivity.
  cbn [Js.truthy]. destruct (String.eqb s "") eqn:E; cbn [negb].
  - reflexivity.
  - repeat split.
    + apply join_split.
    + apply split_pieces_free.
    + apply split_nonempty.
Qed.

Section DerivedFacts.
Context {collaborators : Collaborators} {realm : Realm}.

Lemma capabilitiesLayers_first_defined (it : WebMapServiceCatalogItem)
    (c : WebMapServiceCapabilities) :
  capabilities (stratum it) = Some c ->
  hd_error (Js.defined (Js.values (capabilitiesLayers it))) =
  hd_error (Js.defined (map (findLayer c) (layersArray it))).
Proof.
  intros Hc. unfold capabilitiesLayers, Js.of_entries. rewrite Hc.
  rewrite (first_defined_fold (findLayer c) (layersArray it) []).
  - reflexivity.
  - intros k v H. discriminate H.
Qed.

(** C6. With a capabilities document loaded, [rectangle] is the rectangle of
    the first of the selected layers that the document knows, and it is
    undefined when the document knows none of them. *)
Theorem rectangle_of_first_found_layer (it : WebMapServiceCatalogItem)
    (c : WebMapServiceCapabilities) :
  capabilities (stratum it) = Some c ->
  rectangle it =
    match Js.defined (map (findLayer c) (layersArray it)) with
    | first :: _ => getRectangleFromLayer first
    | [] => None
    end
  /\ ((forall name, In name (layersArray it) -> findLayer c name = None) ->
      rectangle it = None).
Proof.
  intros Hc.
  pose proof (capabilitiesLayers_first_defined it c Hc) as Hhd.
  assert (Hrect : rectangle it =
    match Js.defined (map (findLayer c) (layersArray it)) with
    | first :: _ => getRectangleFromLayer first
    | [] => None
    end).
  { unfold rectangle.
    destruct (Js.defined (Js.values (capabilitiesLayers it))) as [|x xs];
      destruct (Js.defined (map (findLayer c) (layersArray it))) as [|y ys];
      cbn in Hhd; congruence. }
  split; [exact Hrect|].
  intros Hnone. rewrite Hrect.
  clear Hrect Hhd.
  induction (layersArray it) as [|n ns IH]; [reflexivity|].
  cbn [map Js.defined]. rewrite (Hnone n (or_introl eq_refl)).
  apply IH. intros name Hin. apply Hnone. right. exact Hin.
Qed.

(** ** The info sections *)

Lemma dataDescription_content (size : nat) (layer : option CapabilitiesLayer)
    (traits : InfoSectionTraits) :
  dataDescription size layer = Some traits ->
  containsAny (info_content traits) abstractsToIgnore = false.
Proof.
  unfold dataDescription.
  destruct layer as [l|]; [|discriminate].
  destruct (layer_Abstract l) as [abstract|]; [|discriminate].
  destruct (negb (Js.truthy (Some abstract))); cbn [orb]; [discriminate|].
  destruct (containsAny abstract abstractsToIgnore) eqn:E; [discriminate|].
  intros [= <-]. exact E.
Qed.

Lemma info_loop_contents (size : nat) (ls : list (option CapabilitiesLayer))
    (first : option string) (e : InfoSectionTraits) :
  In e (fst (info_loop size ls first)) ->
  containsAny (info_content e) abstractsToIgnore = false.
Proof.
  revert first.
  induction ls as [|layer rest IH]; intros first; cbn [info_loop].
  - intros [].
  - destruct (dataDescription size layer) as [traits|] eqn:Hd.
    + destruct (info_loop size rest
                  (Js.or first (Some (info_content traits))))
        as [result final] eqn:Hloop.
      cbn [fst]. intros [<-|Hin].
      * exact (dataDescription_content _ _ _ Hd).
      * apply (IH (Js.or first (Some (info_content traits)))).
        rewrite Hloop. exact Hin.
    + apply IH.
Qed.

Lemma serviceSections_names (service : CapabilitiesService)
    (first : option string) (e : InfoSectionTraits) :
  In e (serviceSections service first) ->
  String.prefix "Data Description" (info_name e) = false.
Proof.
  unfold serviceSections. intros Hin.
  apply in_app_or in Hin. destruct Hin as [Hin|Hin].
  - destruct (service_Abstract service) as [a|]; [|destruct Hin].
    destruct (_ && _); [|destruct Hin].
    destruct Hin as [<-|[]]. reflexivity.
  - destruct (AccessConstraints service) as [a|]; [|destruct Hin].
    destruct (_ && _); [|destruct Hin].
    destruct Hin as [<-|[]]. reflexivity.
Qed.

(** Every "Data Description" section of [info] carries an abstract that
    holds none of the ignored strings. *)
Lemma info_data_descriptions (it : WebMapServiceCatalogItem)
    (e : InfoSectionTraits) :
  In e (info it) ->
  String.prefix "Data Description" (info_name e) = true ->
  containsAny (info_content e) abstractsToIgnore = false.
Proof.
  unfold info.
  destruct (info_loop (Js.size (capabilitiesLayers it))
              (Js.values (capabilitiesLayers it)) None)
    as [result first] eqn:Hloop.
  assert (Hres : In e result ->
                 containsAny (info_content e) abstractsToIgnore = false).
  { intros Hin.
    apply (info_loop_contents (Js.size (capabilitiesLayers it))
             (Js.values (capabilitiesLayers it)) None).
    rewrite Hloop. exact Hin. }
  destruct (capabilities (stratum it)) as [c|]; [|intros H _; exact (Hres H)].
  destruct (Service c) as [service|]; [|intros H _; exact (Hres H)].
  intros Hin Hname. apply in_app_or in Hin. destruct Hin as [Hin|Hin].
  - exact (Hres Hin).
  - rewrite (serviceSections_names _ _ _ Hin) in Hname. discriminate.
Qed.

(** C8. When the abstract of a selected layer of the loaded document
    contains one of the ignored strings, [info] has no "Data Description"
    section with that abstract; and when that layer is the only selected
    one, [info] has no "Data Description" section at all. *)
Theorem info_skips_ignored_abstract (it : WebMapServiceCatalogItem)
    (c : WebMapServiceCapabilities) (name : string) (l : CapabilitiesLayer)
    (abstract ignored pre post : string) :
  capabilities (stratum it) = Some c ->
  In name (layersArray it) ->
  findLayer c name = Some l ->
  layer_Abstract l = Some abstract ->
  In ignored abstractsToIgnore ->
  abstract = (pre ++ ignored ++ post)%string ->
  (forall e, In e (info it) ->
             String.prefix "Data Description" (info_name e) = true ->
             info_content e <> abstract)
  /\ (layersArray it = [name] ->
      forall e, In e (info it) ->
                String.prefix "Data Description" (info_name e) = false).
Proof.
  intros Hc Hsel Hfind Habs Hign Hshape.
  assert (Hany : containsAny abstract abstractsToIgnore = true).
  { unfold containsAny. apply existsb_exists. exists ignored.
    split; [exact Hign|]. rewrite Hshape. apply includes_app. }
  split.
  - intros e Hin Hname Hcontent.
    pose proof (info_data_descriptions it e Hin Hname) as Hno.
    rewrite Hcontent, Hany in Hno. discriminate.
  - intros Hone e Hin.
    destruct (String.prefix "Data Description" (info_name e)) eqn:Hname;
      [|reflexivity].
    exfalso. revert Hin. unfold info, capabilitiesLayers.
    rewrite Hone, Hc. cbn [map Js.of_entries fold_left fst snd Js.set].
    cbn [Js.size Js.values length map snd info_loop].
    rewrite Hfind. unfold dataDescription. rewrite Habs, Hany.
    rewrite orb_true_r. cbn [info_loop app].
    destruct (Service c) as [service|]; [|intros []].
    intros Hin. rewrite (serviceSections_names _ _ _ Hin) in Hname.
    discriminate.
Qed.

(** ** The legend URLs *)



End DerivedFacts.

(** ** Trait schemas *)

Lemma properties_set (k : string) (d : TraitDefinition)
    (schema : ModelTraits) :
  properties (Js.set k d schema) =
  properties schema ++
  (if existsb (String.eqb k) (properties schema) then [] else [k]).
Proof.
  unfold properties. rewrite keys_set.
  destruct (existsb (String.eqb k) (Js.keys schema));
    [rewrite app_nil_r|]; reflexivity.
Qed.

Lemma existsb_eqb_In (k : string) (ks : list string) :
  existsb (String.eqb k) ks = true <-> In k ks.
Proof.
  rewrite existsb_exists. split.
  - intros [x [Hin Heq]]. apply String.eqb_eq in Heq. subst. exact Hin.
  - intros Hin. exists k. split; [exact Hin|apply String.eqb_refl].
Qed.

(** The names that [mixGroupTraits] appends to those of [Base]. *)
Lemma mixGroupTraits_properties (Base : ModelTraits) :
  properties (mixGroupTraits Base) =
  properties Base ++
  filter (fun k => negb (existsb (String.eqb k) (properties Base)))
         ["isOpen"; "members"].
Proof.
  unfold mixGroupTraits, primitiveTrait, modelReferenceArrayTrait.
  rewrite !properties_set. rewrite <- app_assoc. f_equal.
  cbn [filter].
  rewrite existsb_app.
  destruct (existsb (String.eqb "isOpen") (properties Base)) eqn:Eo;
    destruct (existsb (String.eqb "members") (properties Base)) eqn:Em;
    reflexivity.
Qed.

(** C9, as the code has it. The property names of [mixGroupTraits Base] are
    those of [Base], in their order, followed by those of [isOpen] and
    [members] that [Base] does not declare; so the property set is the union
    of the two sets, the definitions of the other properties of [Base] are
    kept, and the result is a strict superset of [Base] exactly when [Base]
    does not already declare both [isOpen] and [members]. *)
Theorem mixGroupTraits_union (Base : ModelTraits) :
  properties (mixGroupTraits Base) =
    properties Base ++
    filter (fun k => negb (existsb (String.eqb k) (properties Base)))
           ["isOpen"; "members"]
  /\ (forall k, In k (properties (mixGroupTraits Base)) <->
                In k (properties Base) \/ k = "isOpen" \/ k = "members")
  /\ (forall k, k <> "isOpen" -> k <> "members" ->
                Js.get k (mixGroupTraits Base) = Js.get k Base)
  /\ (strict_superset (properties (mixGroupTraits Base)) (properties Base)
      <-> ~ (In "isOpen" (properties Base) /\
             In "members" (properties Base))).
Proof.
  pose proof (mixGroupTraits_properties Base) as Hp.
  assert (Hunion : forall k, In k (properties (mixGroupTraits Base)) <->
                   In k (properties Base) \/ k = "isOpen" \/ k = "members").
  { intros k. rewrite Hp, in_app_iff, filter_In. cbn [In].
    rewrite negb_true_iff. split.
    - intros [H|[[H|[H|[]]] _]]; auto.
    - intros [H|H]; [left; exact H|].
      destruct (existsb (String.eqb k) (properties Base)) eqn:E.
      + left. apply existsb_eqb_In. exact E.
      + right. split; [|reflexivity]. destruct H as [->| ->]; auto. }
  split; [exact Hp|]. split; [exact Hunion|]. split.
  - intros k Ho Hm. unfold mixGroupTraits, primitiveTrait,
      modelReferenceArrayTrait.
    rewrite !get_set_other by assumption. reflexivity.
  - unfold strict_superset. split.
    + intros [_ Hnot] [Ho Hm]. apply Hnot. intros k Hk.
      apply Hunion in Hk. destruct Hk as [H|[->| ->]]; assumption.
    + intros Hnot. split.
      * intros k Hk. apply Hunion. left. exact Hk.
      * intros Hincl. apply Hnot. split; apply Hincl; apply Hunion; auto.
Qed.

(** C9 as stated fails for a base that is itself a group schema: mixing the
    group traits in once more adds no property, so the result is no strict
    superset and nothing is appended. *)
Lemma mixGroupTraits_twice_adds_nothing :
  properties (mixGroupTraits groupSchema) <>
    properties groupSchema ++ ["isOpen"; "members"]
  /\ ~ strict_superset (properties (mixGroupTraits groupSchema))
                       (properties groupSchema).
Proof.
  split.
  - vm_compute. discriminate.
  - intros [_ Hnot]. apply Hnot. vm_compute. intros k H. exact H.
Qed.

(** ** The reactive store *)

Lemma exec_bind {A B : Type} (m : Action A) (k : A -> Action B) (w : World) :
  exec (bind m k) w = exec (k (eval m w)) (exec m w).
Proof. unfold exec, eval, bind. destruct (m w). reflexivity. Qed.

Lemma eval_bind {A B : Type} (m : Action A) (k : A -> Action B) (w : World) :
  eval (bind m k) w = eval (k (eval m w)) (exec m w).
Proof. unfold exec, eval, bind. destruct (m w). reflexivity. Qed.

Lemma get_In {V : Type} (k : string) (v : V) (m : Js.Map V) :
  Js.get k m = Some v -> In (k, v) m.
Proof.
  induction m as [|[k' v'] rest IH]; cbn; [discriminate|].
  destruct (String.eqb_spec k' k) as [->|Hne].
  - intros [= ->]. left. reflexivity.
  - intros H. right. exact (IH H).
Qed.

Lemma In_set {V : Type} (k k0 : string) (v v0 : V) (m : Js.Map V) :
  In (k0, v0) (Js.set k v m) -> (k0, v0) = (k, v) \/ In (k0, v0) m.
Proof.
  induction m as [|[k' v'] rest IH]; cbn.
  - intros [H|[]]. left. symmetry. exact H.
  - destruct (String.eqb_spec k' k) as [->|Hne]; cbn.
    + intros [H|H]; [left; symmetry; exact H|right; right; exact H].
    + intros [H|H]; [right; left; exact H|].
      destruct (IH H) as [H'|H']; [left; exact H'|right; right; exact H'].
Qed.

Lemma filter_keeps_all {A : Type} (keep : A -> bool) (l : list A) :
  (forall x, In x l -> keep x = true) -> filter keep l = l.
Proof.
  induction l as [|x rest IH]; cbn; [reflexivity|].
  intros H. rewrite (H x (or_introl eq_refl)).
  rewrite IH; [reflexivity|]. intros y Hy. apply H. right. exact Hy.
Qed.

Lemma filter_drops_all {A : Type} (keep : A -> bool) (l : list A) :
  (forall x, In x l -> keep x = false) -> filter keep l = [].
Proof.
  induction l as [|x rest IH]; cbn; [reflexivity|].
  intros H. rewrite (H x (or_introl eq_refl)).
  apply IH. intros y Hy. apply H. right. exact Hy.
Qed.

Section StoreFacts.
Context {collaborators : Collaborators}.

Lemma exec_runInAction {A : Type} (body : Action A) (w : World) :
  exec (runInAction body) w = endBatch (exec body (startBatch w)).
Proof.
  unfold exec, runInAction. destruct (body (startBatch w)). reflexivity.
Qed.

(** What the end of a transaction leaves alone. *)
Lemma settleBatch_frame (w : World) :
  item (settleBatch w) = item w /\
  transformer (settleBatch w) = transformer w /\
  unobserved (settleBatch w) = unobserved w /\
  constructed (settleBatch w) = constructed w /\
  inBatch (settleBatch w) = inBatch w.
Proof.
  unfold settleBatch, runReactions.
  destruct (inBatch w =? 0)%nat; [destruct (stratumChanged w)|];
    repeat split; reflexivity.
Qed.

Lemma releaseUnobserved_frame (w : World) :
  item (releaseUnobserved w) = item w /\
  constructed (releaseUnobserved w) = constructed w /\
  inBatch (releaseUnobserved w) = inBatch w /\
  stratumChanged (releaseUnobserved w) = stratumChanged w /\
  observed (releaseUnobserved w) = observed w.
Proof.
  unfold releaseUnobserved.
  destruct (inBatch w =? 0)%nat; repeat split; reflexivity.
Qed.

Lemma item_endBatch (w : World) : item (endBatch w) = item w.
Proof.
  unfold endBatch.
  rewrite (proj1 (releaseUnobserved_frame _)).
  rewrite (proj1 (settleBatch_frame _)). reflexivity.
Qed.

Lemma item_assign (wr : Write) (w : World) :
  item (exec (assign wr) w) =
  if changes wr (item w) then store wr (item w) else item w.
Proof.
  unfold exec, assign. destruct (changes wr (item w)); [|reflexivity].
  cbn [snd]. rewrite (proj1 (settleBatch_frame _)). reflexivity.
Qed.

Lemma coherent_ext (w w' : World) :
  item w' = item w -> transformer w' = transformer w ->
  constructed w' = constructed w -> coherent w -> coherent w'.
Proof.
  unfold coherent. intros Hi Ht Hc H time d Hin.
  rewrite Hi, Hc. rewrite Ht in Hin. exact (H time d Hin).
Qed.

Lemma coherent_runReactions (w : World) :
  coherent w -> coherent (runReactions w).
Proof.
  unfold runReactions. destruct (stratumChanged w); [|exact (fun H => H)].
  apply coherent_ext; reflexivity.
Qed.

Lemma coherent_settleBatch (w : World) :
  coherent w -> coherent (settleBatch w).
Proof.
  unfold settleBatch. destruct (inBatch w =? 0)%nat; [|exact (fun H => H)].
  apply coherent_runReactions.
Qed.

Lemma coherent_startBatch (w : World) : coherent w -> coherent (startBatch w).
Proof. apply coherent_ext; reflexivity. Qed.

Lemma coherent_releaseUnobserved (w : World) :
  coherent w -> coherent (releaseUnobserved w).
Proof.
  intros H. unfold releaseUnobserved.
  destruct (inBatch w =? 0)%nat; [|exact H].
  intros time d Hin. cbn [transformer item constructed] in *.
  unfold forget in Hin. apply filter_In in Hin. exact (H time d (proj1 Hin)).
Qed.

Lemma coherent_endBatch (w : World) : coherent w -> coherent (endBatch w).
Proof.
  intros H. unfold endBatch.
  apply coherent_releaseUnobserved, coherent_settleBatch.
  revert H. apply coherent_ext; reflexivity.
Qed.

(** A write leaves alone what the body of the transformer computes, unless
    the body read the observable written. *)
Lemma build_store_frame (n : nat) (wr : Write)
    (it : WebMapServiceCatalogItem) :
  stale wr it (buildImageryProvider n it) = false ->
  buildImageryProvider n (store wr it) = buildImageryProvider n it.
Proof.
  unfold buildImageryProvider, stale, reads.
  destruct (isLoading (stratum it)) eqn:E; destruct wr;
    cbn [written observing existsb Observable_eqb orb andb rectangle_reads];
    try discriminate; intros H; cbn [store stratum isLoading]; rewrite ?E;
    try reflexivity.
  unfold rectangle_renewed in H. cbn [store] in H.
  unfold url_or_empty, layers_or_empty. cbn [url layers].
  destruct (rectangle it); [discriminate|].
  destruct (rectangle _); [discriminate|]. reflexivity.
Qed.

Lemma coherent_assign (wr : Write) (w : World) :
  coherent w -> coherent (exec (assign wr) w).
Proof.
  intros H. unfold exec, assign.
  destruct (changes wr (item w)); [|exact H]. cbn [snd].
  apply coherent_settleBatch.
  intros time d Hin. cbn [transformer item constructed] in *.
  unfold invalidate in Hin. apply filter_In in Hin.
  destruct Hin as [Hin Hkeep]. cbn [snd] in Hkeep.
  apply negb_true_iff in Hkeep.
  destruct (H time d Hin) as [n [Hd Hid]].
  exists n. split; [|exact Hid].
  rewrite Hd in Hkeep. rewrite (build_store_frame n wr _ Hkeep). exact Hd.
Qed.

Lemma coherent_runInAction {A : Type} (body : Action A) (w : World) :
  (forall w0, coherent w0 -> coherent (exec body w0)) ->
  coherent w -> coherent (exec (runInAction body) w).
Proof.
  intros Hbody H. unfold exec, runInAction.
  pose proof (Hbody (startBatch w) (coherent_startBatch w H)) as Hb.
  unfold exec in Hb. destruct (body (startBatch w)) as [a w']. cbn [snd] in *.
  apply coherent_endBatch. exact Hb.
Qed.

Lemma coherent_assign2 (wr1 wr2 : Write) (w : World) :
  coherent w -> coherent (exec (assign wr1 ;; assign wr2) w).
Proof.
  intros H. rewrite exec_bind. apply coherent_assign, coherent_assign, H.
Qed.

Lemma exec_loadCapabilities (w : World) :
  exec loadCapabilities w =
  exec (runInAction (assign (SetIsLoading true) ;;
                     assign (SetCapabilities None))) w.
Proof.
  unfold loadCapabilities. rewrite exec_bind, exec_bind.
  unfold this at 2. unfold eval at 1. cbn [fst].
  unfold this. unfold exec at 2. cbn [snd].
  destruct (getCapabilitiesUrl _); reflexivity.
Qed.

Lemma coherent_loadMetadata (w : World) :
  coherent w -> coherent (exec loadMetadata w).
Proof.
  intros H. unfold loadMetadata. rewrite exec_loadCapabilities.
  apply coherent_runInAction; [|exact H].
  intros w0. apply coherent_assign2.
Qed.

Lemma coherent_onCapabilities (c : WebMapServiceCapabilities) (w : World) :
  coherent w -> coherent (exec (onCapabilities c) w).
Proof.
  intros H. unfold onCapabilities.
  apply coherent_runInAction; [|exact H].
  intros w0. apply coherent_assign2.
Qed.

Lemma coherent_createImageryProvider (ctx : ReadContext) (time : string)
    (w : World) :
  coherent w -> coherent (exec (_createImageryProvider ctx time) w).
Proof.
  intros H. unfold exec, _createImageryProvider.
  destruct (Js.get time (transformer w)) as [d|]; cbn [snd].
  { destruct ctx; [|exact H]. revert H. apply coherent_ext; reflexivity. }
  intros t d Hin. cbn [transformer item constructed] in *.
  assert (Hin' : (t, d) = (time, buildImageryProvider (constructed w)
                                   (item w)) \/
                 In (t, d) (transformer w)).
  { destruct (tracked ctx w); [apply In_set; exact Hin|right; exact Hin]. }
  clear Hin. destruct Hin' as [Heq|Hin].
  - injection Heq as _ ->. exists (constructed w). split; [reflexivity|].
    intros p Hp. rewrite Hp.
    unfold buildImageryProvider in Hp.
    destruct (isLoading (stratum (item w))); [discriminate|].
    injection Hp as <-. cbn. lia.
  - destruct (H t d Hin) as [n [Hd Hid]]. exists n. split; [exact Hd|].
    intros p Hp. specialize (Hid p Hp).
    destruct (value (buildImageryProvider (constructed w) (item w))); lia.
Qed.

(** A read of [mapItems] that is tracked requests the provider of the time
    "now" and wraps it. *)
Lemma run_mapItems (ctx : ReadContext) (w : World) :
  tracked ctx w = true ->
  exec (mapItems ctx) w = exec (_createImageryProvider ctx "now") w
  /\
  eval (mapItems ctx) w =
    Some match eval (_createImageryProvider ctx "now") w with
         | Some p =>
             [{| imageryProvider := p;
                 alpha := opacity (item w);
                 parts_show := match show (item w) with
                               | Some b => b
                               | None => true
                               end |}]
         | None => []
         end.
Proof.
  intros Ht.
  unfold mapItems, _currentImageryParts, _nextImageryParts, trace, bind,
    this, ret, exec, eval, currentDiscreteTime, nextDiscreteTime,
    _createImageryProvider.
  cbn [Js.or Js.truthy].
  cbv beta.
  destruct ctx; cbn [tracked] in *; rewrite ?Ht; cbv beta iota;
    (destruct (Js.get "now" (transformer w)) as [d|];
     [destruct (value d)
     |destruct (value (buildImageryProvider (constructed w) (item w)))]);
    cbv beta iota; cbn [inBatch]; rewrite ?Ht; cbv beta iota;
    cbn [fst snd]; split; reflexivity.
Qed.


Lemma coherent_mapItems (w : World) :
  coherent w -> coherent (exec (mapItems InDerivation) w).
Proof.
  intros H. rewrite (proj1 (run_mapItems InDerivation w eq_refl)).
  apply coherent_createImageryProvider, H.
Qed.

Lemma coherent_handle (w : World) (e : Event) :
  coherent w -> coherent (handle w e).
Proof.
  intros H. destruct e as [|c|reason| |wr]; cbn [handle].
  - apply coherent_loadMetadata, H.
  - apply coherent_onCapabilities, H.
  - exact H.
  - apply coherent_mapItems, H.
  - destruct (edits_trait wr); [apply coherent_assign, H|exact H].
Qed.

Lemma coherent_run (events : list Event) (w : World) :
  coherent w -> coherent (run events w).
Proof.
  revert w. induction events as [|e rest IH]; intros w H; [exact H|].
  cbn [run fold_left]. apply IH, coherent_handle, H.
Qed.


(** What [loadCapabilities] leaves in the item, whatever the state
    before. *)
Lemma item_loadCapabilities (w : World) :
  item (exec loadCapabilities w) =
  store (SetCapabilities None) (store (SetIsLoading true) (item w)).
Proof.
  rewrite exec_loadCapabilities, exec_runInAction, item_endBatch, exec_bind.
  rewrite !item_assign. cbn [item startBatch].
  destruct (item w) as [u l o sh gu gd [caps loading]].
  destruct caps, loading; reflexivity.
Qed.

Lemma eval_loadCapabilities (w : World) :
  eval loadCapabilities w =
  match getCapabilitiesUrl (item (exec loadCapabilities w)) with
  | None => RejectedNow (Terria missingUrlError)
  | Some capabilitiesUrl =>
      Fetching
        (proxyCatalogItemUrl (item (exec loadCapabilities w)) capabilitiesUrl
           (getCapabilitiesCacheDuration (item (exec loadCapabilities w))))
  end.
Proof.
  rewrite exec_loadCapabilities. unfold loadCapabilities.
  rewrite eval_bind, eval_bind.
  unfold this at 2. unfold eval at 2. cbn [fst].
  unfold this. unfold exec at 1. cbn [snd].
  destruct (getCapabilitiesUrl _); reflexivity.
Qed.

(** Whatever the state before, [loadCapabilities] leaves the stratum marked
    as loading, with no capabilities. *)
Lemma stratum_after_loadCapabilities (w : World) :
  stratum (item (exec loadCapabilities w)) =
  {| capabilities := None; isLoading := true |}.
Proof. rewrite item_loadCapabilities. reflexivity. Qed.

Lemma createImageryProvider_while_loading (ctx : ReadContext)
    (time : string) (w : World) :
  coherent w -> isLoading (stratum (item w)) = true ->
  eval (_createImageryProvider ctx time) w = None.
Proof.
  intros H Hload. unfold eval, _createImageryProvider.
  destruct (Js.get time (transformer w)) as [d|] eqn:Hget; cbn [fst].
  - destruct (H time d (get_In _ _ _ Hget)) as [n [-> _]].
    unfold buildImageryProvider. rewrite Hload. reflexivity.
  - unfold buildImageryProvider. rewrite Hload. reflexivity.
Qed.


(** ** Memoization of the imagery provider *)


Lemma transformer_settleBatch (w : World) :
  transformer (settleBatch w) = transformer w /\
  constructed (settleBatch w) = constructed w /\
  item (settleBatch w) = item w.
Proof.
  unfold settleBatch, runReactions.
  destruct (inBatch w =? 0)%nat; [destruct (stratumChanged w)|];
    repeat split; reflexivity.
Qed.

Lemma transformer_assign (wr : Write) (w : World) :
  changes wr (item w) = true ->
  transformer (exec (assign wr) w) = invalidate wr (item w) (transformer w)
  /\ constructed (exec (assign wr) w) = constructed w
  /\ item (exec (assign wr) w) = store wr (item w).
Proof.
  intros Hch. unfold exec, assign. rewrite Hch. cbn [snd].
  match goal with
  | |- context [settleBatch ?x] =>
      destruct (transformer_settleBatch x) as [-> [-> ->]]
  end.
  repeat split; reflexivity.
Qed.














(** ** Loading *)

Lemma run_loadCapabilities (w : World) :
  quiescent w ->
  quiescent (exec loadCapabilities w) /\
  stratum (item (exec loadCapabilities w)) =
    {| capabilities := None; isLoading := true |} /\
  (observed (exec loadCapabilities w) = observed w \/
   observed (exec loadCapabilities w) =
     observed w ++ [{| capabilities := None; isLoading := true |}]).
Proof.
  intros [Hdepth Hchanged]. rewrite exec_loadCapabilities.
  destruct w as [[u l o sh gu gd [caps loading]]
                   memo pending k depth changed seen].
  cbn in Hdepth, Hchanged. subst depth changed.
  unfold quiescent, exec, runInAction, bind, assign, startBatch, endBatch,
    releaseUnobserved, settleBatch, runReactions.
  destruct caps, loading; cbn; repeat split; auto.
Qed.

Lemma run_onCapabilities (c : WebMapServiceCapabilities) (w : World) :
  quiescent w ->
  quiescent (exec (onCapabilities c) w) /\
  stratum (item (exec (onCapabilities c) w)) =
    {| capabilities := Some c; isLoading := false |} /\
  observed (exec (onCapabilities c) w) =
    observed w ++ [{| capabilities := Some c; isLoading := false |}].
Proof.
  intros [Hdepth Hchanged].
  destruct w as [[u l o sh gu gd [caps loading]]
                   memo pending k depth changed seen].
  cbn in Hdepth, Hchanged. subst depth changed.
  unfold quiescent, onCapabilities, exec, runInAction, bind, assign,
    startBatch, endBatch, releaseUnobserved, settleBatch, runReactions.
  destruct caps, loading; cbn; repeat split; auto.
Qed.

Lemma run_edit (wr : Write) (w : World) :
  quiescent w -> edits_trait wr = true ->
  quiescent (exec (assign wr) w) /\
  observed (exec (assign wr) w) = observed w /\
  stratum (item (exec (assign wr) w)) = stratum (item w).
Proof.
  intros [Hdepth Hchanged] Hedit.
  unfold exec, assign. destruct (changes wr (item w));
    [|repeat split; assumption].
  cbn [snd]. unfold settleBatch, runReactions, quiescent.
  cbn [inBatch stratumChanged item observed]. rewrite Hdepth, Hchanged.
  unfold edits_trait in Hedit. apply negb_true_iff in Hedit.
  rewrite Hedit. cbn. repeat split; try assumption.
  destruct wr; try discriminate Hedit; reflexivity.
Qed.

Lemma run_read (w : World) :
  quiescent w ->
  quiescent (exec (mapItems InDerivation) w) /\
  observed (exec (mapItems InDerivation) w) = observed w /\
  stratum (item (exec (mapItems InDerivation) w)) = stratum (item w).
Proof.
  intros Hq. rewrite (proj1 (run_mapItems InDerivation w eq_refl)).
  unfold exec, _createImageryProvider.
  destruct (Js.get "now" (transformer w)); cbn [snd];
    repeat split; apply Hq || reflexivity.
Qed.

(** Every state shown to an observer is one of the two states that a
    transaction of [loadCapabilities] ends in. *)
Lemma observations_consistent (events : list Event) (w : World) :
  quiescent w -> Forall settled_or_cleared (observed w) ->
  quiescent (run events w) /\
  Forall settled_or_cleared (observed (run events w)).
Proof.
  revert w. induction events as [|e rest IH]; intros w Hq Hlog;
    [split; assumption|].
  cbn [run fold_left]. apply IH.
  - destruct e as [|c|reason| |wr]; cbn [handle]; unfold loadMetadata.
    + apply (run_loadCapabilities w Hq).
    + apply (run_onCapabilities c w Hq).
    + exact Hq.
    + apply (run_read w Hq).
    + destruct (edits_trait wr) eqn:E; [apply (run_edit wr w Hq E)|exact Hq].
  - destruct e as [|c|reason| |wr]; cbn [handle]; unfold loadMetadata.
    + destruct (run_loadCapabilities w Hq) as [_ [_ [-> | ->]]];
        [exact Hlog|].
      apply Forall_app. split; [exact Hlog|].
      constructor; [|constructor]. intros _. reflexivity.
    + destruct (run_onCapabilities c w Hq) as [_ [_ ->]].
      apply Forall_app. split; [exact Hlog|].
      constructor; [|constructor]. intros Habs. discriminate Habs.
    + exact Hlog.
    + destruct (run_read w Hq) as [_ [-> _]]. exact Hlog.
    + destruct (edits_trait wr) eqn:E; [|exact Hlog].
      destruct (run_edit wr w Hq E) as [_ [-> _]]. exact Hlog.
Qed.

Lemma run_awaitLoadMetadata (fromUrl : Loader) (w : World)
    (proxiedUrl : string) (c : WebMapServiceCapabilities) :
  eval loadMetadata w = Fetching proxiedUrl ->
  fromUrl proxiedUrl = inr c ->
  eval (awaitLoadMetadata fromUrl) w = Fulfilled /\
  exec (awaitLoadMetadata fromUrl) w =
    exec (onCapabilities c) (exec loadMetadata w).
Proof.
  intros Hfetch Hresolve. unfold awaitLoadMetadata.
  rewrite eval_bind, exec_bind, Hfetch. cbn [settle]. rewrite Hresolve.
  rewrite eval_bind, exec_bind. split; reflexivity.
Qed.

(** Over any run, what the observers are shown and what a poll finds is
    the cleared state of a load that started or the settled state of a
    fetch that resolved during the run. *)
Lemma observations_since (P : GetCapabilitiesStratum -> Prop)
    (events : list Event) (w : World) :
  quiescent w ->
  P {| capabilities := None; isLoading := true |} ->
  (forall c, In (FetchResolved c) events ->
             P {| capabilities := Some c; isLoading := false |}) ->
  P (stratum (item w)) ->
  exists news,
    observed (run events w) = observed w ++ news /\
    Forall P news /\
    P (stratum (item (run events w))).
Proof.
  intros Hq Hcleared. revert w Hq.
  induction events as [|e rest IH]; intros w Hq Hsettled Hnow.
  { exists []. rewrite app_nil_r. repeat split; [constructor|exact Hnow]. }
  assert (Hrest : forall c, In (FetchResolved c) rest ->
            P {| capabilities := Some c; isLoading := false |}).
  { intros c Hin. apply Hsettled. right. exact Hin. }
  cbn [run fold_left]. fold (run rest (handle w e)).
  destruct e as [|c|reason| |wr]; cbn [handle].
  - destruct (run_loadCapabilities w Hq) as [Hq1 [Hs1 Hobs1]].
    fold loadMetadata in Hq1, Hs1, Hobs1.
    destruct (IH _ Hq1 Hrest) as [news [Hobs [Hall Hpoll]]].
    { rewrite Hs1. exact Hcleared. }
    destruct Hobs1 as [Hsame | Hmore].
    + exists news. rewrite Hobs, Hsame. repeat split; assumption.
    + exists ({| capabilities := None; isLoading := true |} :: news).
      rewrite Hobs, Hmore, <- app_assoc.
      repeat split; [constructor|]; assumption.
  - destruct (run_onCapabilities c w Hq) as [Hq1 [Hs1 Hobs1]].
    assert (Hc : P {| capabilities := Some c; isLoading := false |}).
    { apply Hsettled. left. reflexivity. }
    destruct (IH _ Hq1 Hrest) as [news [Hobs [Hall Hpoll]]].
    { rewrite Hs1. exact Hc. }
    exists ({| capabilities := Some c; isLoading := false |} :: news).
    rewrite Hobs, Hobs1, <- app_assoc.
    repeat split; [constructor|]; assumption.
  - apply (IH w Hq Hrest Hnow).
  - destruct (run_read w Hq) as [Hq1 [Hobs1 Hs1]].
    destruct (IH _ Hq1 Hrest) as [news [Hobs [Hall Hpoll]]].
    { rewrite Hs1. exact Hnow. }
    exists news. rewrite Hobs, Hobs1. repeat split; assumption.
  - destruct (edits_trait wr) eqn:E; [|apply (IH w Hq Hrest Hnow)].
    destruct (run_edit wr w Hq E) as [Hq1 [Hobs1 Hs1]].
    destruct (IH _ Hq1 Hrest) as [news [Hobs [Hall Hpoll]]].
    { rewrite Hs1. exact Hnow. }
    exists news. rewrite Hobs, Hobs1. repeat split; assumption.
Qed.

(** C3. The trigger of a load leaves the stratum cleared and loading, and
    shows its observers at most that one state, at the end of the one
    transaction. A load whose fetch resolves with [c] then shows exactly
    the state ([c], not loading), again at the end of one transaction: no
    state in between is shown. Whatever happens after the trigger (further
    loads, fetches that settle, reads of [mapItems], edits of the traits),
    every state shown to an observer since the trigger, and the state a
    poll finds afterwards, either is loading with no payload, or is not
    loading with the payload of a fetch that resolved after the trigger:
    never [isLoading = false] next to the payload from before the trigger,
    never a payload next to [isLoading = true]. Over any run, no observer
    sees capabilities defined while [isLoading] is true. *)
Theorem load_transitions_are_atomic (w : World) (fromUrl : Loader)
    (proxiedUrl : string) (c : WebMapServiceCapabilities) :
  quiescent w ->
  eval loadMetadata w = Fetching proxiedUrl ->
  fromUrl proxiedUrl = inr c ->
  stratum (item (exec loadMetadata w)) =
    {| capabilities := None; isLoading := true |}
  /\ (observed (exec loadMetadata w) = observed w \/
      observed (exec loadMetadata w) =
        observed w ++ [{| capabilities := None; isLoading := true |}])
  /\ observed (exec (awaitLoadMetadata fromUrl) w) =
       observed (exec loadMetadata w) ++
       [{| capabilities := Some c; isLoading := false |}]
  /\ stratum (item (exec (awaitLoadMetadata fromUrl) w)) =
       {| capabilities := Some c; isLoading := false |}
  /\ (exists news,
        observed (exec (awaitLoadMetadata fromUrl) w) = observed w ++ news /\
        Forall (fun s =>
                  (isLoading s = true -> capabilities s = None) /\
                  (isLoading s = false -> capabilities s = Some c)) news)
  /\ (forall events,
        exists news,
          observed (run events (exec loadMetadata w)) = observed w ++ news /\
          Forall (fun s =>
                    s = {| capabilities := None; isLoading := true |} \/
                    exists c', In (FetchResolved c') events /\
                      s = {| capabilities := Some c'; isLoading := false |})
                 news /\
          (stratum (item (run events (exec loadMetadata w))) =
             {| capabilities := None; isLoading := true |} \/
           exists c', In (FetchResolved c') events /\
             stratum (item (run events (exec loadMetadata w))) =
               {| capabilities := Some c'; isLoading := false |}))
  /\ (forall events,
        Forall settled_or_cleared (observed w) ->
        Forall settled_or_cleared (observed (run events w))).
Proof.
  intros Hq Hfetch Hresolve.
  destruct (run_awaitLoadMetadata fromUrl w proxiedUrl c Hfetch Hresolve)
    as [_ Hexec].
  destruct (run_loadCapabilities w Hq) as [Hq1 [Hs1 Hobs1]].
  fold loadMetadata in Hq1, Hs1, Hobs1.
  destruct (run_onCapabilities c _ Hq1) as [Hq2 [Hs2 Hobs2]].
  rewrite Hexec.
  split; [exact Hs1|].
  split; [exact Hobs1|]. split; [exact Hobs2|]. split; [exact Hs2|].
  split; [|split].
  - rewrite Hobs2. destruct Hobs1 as [-> | ->].
    + eexists. split; [reflexivity|].
      constructor; [|constructor]. cbn. split; [discriminate|reflexivity].
    + rewrite <- app_assoc. eexists. split; [reflexivity|].
      constructor; [|constructor; [|constructor]]; cbn;
        split; (discriminate || reflexivity).
  - intros events.
    destruct (observations_since
      (fun s =>
         s = {| capabilities := None; isLoading := true |} \/
         exists c', In (FetchResolved c') events /\
           s = {| capabilities := Some c'; isLoading := false |})
      events (exec loadMetadata w) Hq1) as [news [Hobs [Hall Hpoll]]].
    + left. reflexivity.
    + intros c' Hin. right. exists c'. split; [exact Hin|reflexivity].
    + left. exact Hs1.
    + destruct Hobs1 as [Hsame | Hmore].
      * exists news. rewrite Hobs, Hsame. repeat split; assumption.
      * exists ({| capabilities := None; isLoading := true |} :: news).
        rewrite Hobs, Hmore, <- app_assoc.
        repeat split; [constructor; [left; reflexivity|]|]; assumption.
  - intros events Hlog. apply (observations_consistent events w Hq Hlog).
Qed.

(** Without the transaction, the first assignment of [loadCapabilities]
    alone would show an observer the old capabilities next to
    [isLoading = true]. *)
Lemma unbatched_write_is_observed (c : WebMapServiceCapabilities)
    (it : WebMapServiceCatalogItem) :
  stratum it = {| capabilities := Some c; isLoading := false |} ->
  observed (exec (assign (SetIsLoading true)) (worldOf it)) =
    [{| capabilities := Some c; isLoading := true |}].
Proof.
  destruct it as [u l o sh gu gd s]. cbn [stratum]. intros ->. reflexivity.
Qed.

End StoreFacts.

(** * Loads that fail *)

Lemma coherent_worldOf (it : WebMapServiceCatalogItem) :
  coherent (collaborators := sampleCollaborators) (worldOf it).
Proof. intros time d []. Qed.

Lemma coherent_renderedWorld :
  coherent (collaborators := sampleCollaborators) renderedWorld.
Proof. apply coherent_mapItems, coherent_worldOf. Qed.

(** C1. On a newly constructed item without a URL, [loadMetadata] rejects at
    once with the [TerriaError], no fetch is issued, and yet the call has
    changed the stratum: [isLoading] was false before and is true after. *)
Theorem loadMetadata_without_url_sets_isLoading :
  eval (loadMetadata (collaborators := sampleCollaborators))
       (worldOf itemWithoutUrl) = RejectedNow (Terria missingUrlError)
  /\ eval (awaitLoadMetadata (collaborators := sampleCollaborators)
            sampleLoader) (worldOf itemWithoutUrl) =
       Rejected (Terria missingUrlError)
  /\ stratum (item (worldOf itemWithoutUrl)) =
       {| capabilities := None; isLoading := false |}
  /\ stratum (item (exec (loadMetadata (collaborators := sampleCollaborators))
                         (worldOf itemWithoutUrl))) =
       {| capabilities := None; isLoading := true |}
  /\ observed (exec (loadMetadata (collaborators := sampleCollaborators))
                    (worldOf itemWithoutUrl)) =
       [{| capabilities := None; isLoading := true |}].
Proof. repeat split; reflexivity. Qed.

(** C2. On an item with a URL whose fetch rejects, the rejection reaches the
    caller unchanged, the capabilities stay undefined and [mapItems], read
    from a derivation, stays empty, a second [loadMetadata] whose fetch
    resolves ends in the loaded state; but [isLoading] is still true after
    the failed load. *)
Theorem failed_load_leaves_isLoading_set :
  eval (awaitLoadMetadata (collaborators := sampleCollaborators)
          failingLoader) (worldOf itemWithUrl) =
    Rejected (Foreign "network error")
  /\ stratum (item (exec (awaitLoadMetadata
                            (collaborators := sampleCollaborators)
                            failingLoader) (worldOf itemWithUrl))) =
       {| capabilities := None; isLoading := true |}
  /\ eval (mapItems (collaborators := sampleCollaborators) InDerivation)
          (exec (awaitLoadMetadata (collaborators := sampleCollaborators)
                   failingLoader) (worldOf itemWithUrl)) = Some []
  /\ stratum (item (exec (awaitLoadMetadata
                            (collaborators := sampleCollaborators)
                            sampleLoader)
                         (exec (awaitLoadMetadata
                                  (collaborators := sampleCollaborators)
                                  failingLoader) (worldOf itemWithUrl)))) =
       loadedStratum.
Proof. repeat split; reflexivity. Qed.

Section FailedLoads.
Context {collaborators : Collaborators}.

(** Without a URL, [loadCapabilities] rejects with the [TerriaError] and
    issues no fetch, whatever the state. *)
Lemma loadCapabilities_without_url (w : World) :
  getCapabilitiesUrl (item w) = None ->
  eval loadCapabilities w = RejectedNow (Terria missingUrlError).
Proof.
  intros Hurl. rewrite eval_loadCapabilities, item_loadCapabilities.
  destruct (item w) as [u l o sh gu gd s]. cbn in *. rewrite Hurl.
  reflexivity.
Qed.

(** A fetch that rejects leaves the store as the start of the load left it,
    and hands its reason to the caller. *)
Lemma awaitLoadMetadata_rejected (fromUrl : Loader) (w : World)
    (proxiedUrl : string) (reason : JsError) :
  eval loadMetadata w = Fetching proxiedUrl ->
  fromUrl proxiedUrl = inl reason ->
  eval (awaitLoadMetadata fromUrl) w = Rejected reason /\
  exec (awaitLoadMetadata fromUrl) w = exec loadMetadata w /\
  stratum (item (exec (awaitLoadMetadata fromUrl) w)) =
    {| capabilities := None; isLoading := true |}.
Proof.
  intros Hfetch Hreject. unfold awaitLoadMetadata.
  rewrite eval_bind, exec_bind, Hfetch. cbn [settle]. rewrite Hreject.
  repeat split. unfold loadMetadata, ret, exec at 1. cbn [snd].
  apply stratum_after_loadCapabilities.
Qed.

End FailedLoads.

(** * Instances on the sample data *)

Lemma load_transitions_are_atomic_witness :
  quiescent (worldOf itemWithUrl)
  /\ stratum (item (exec (loadMetadata (collaborators := sampleCollaborators))
                         (worldOf itemWithUrl))) =
       {| capabilities := None; isLoading := true |}
  /\ observed (exec (awaitLoadMetadata (collaborators := sampleCollaborators)
                      sampleLoader) (worldOf itemWithUrl)) =
       observed (exec (loadMetadata (collaborators := sampleCollaborators))
                      (worldOf itemWithUrl)) ++
       [{| capabilities := Some sampleDocument; isLoading := false |}].
Proof.
  assert (Hq : quiescent (worldOf itemWithUrl)) by (split; reflexivity).
  pose proof
    (load_transitions_are_atomic (collaborators := sampleCollaborators)
       (worldOf itemWithUrl) sampleLoader
       ("proxy/" ++ sampleCapabilitiesUrl) sampleDocument
       Hq eq_refl eq_refl) as H.
  split; [exact Hq|]. split; [exact (proj1 H)|].
  exact (proj1 (proj2 (proj2 H))).
Defined.



Lemma rectangle_of_first_found_layer_witness :
  capabilities (stratum twoLayerItem) = Some sampleDocument
  /\ rectangle (collaborators := sampleCollaborators) twoLayerItem =
     layer_BoundingBox precipitationLayer.
Proof.
  split; [reflexivity|].
  exact (proj1
    (rectangle_of_first_found_layer (collaborators := sampleCollaborators)
       twoLayerItem sampleDocument eq_refl)).
Defined.


Lemma info_skips_ignored_abstract_witness :
  findLayer sampleDocument "stock" = Some stockLayer
  /\ forall e, In e (info stockItem) ->
               String.prefix "Data Description" (info_name e) = false.
Proof.
  split; [reflexivity|].
  exact (proj2
    (info_skips_ignored_abstract stockItem sampleDocument "stock" stockLayer
       "A compliant implementation of WMS plus most of the SLD extension"
       "A compliant implementation of WMS" ""
       " plus most of the SLD extension"
       eq_refl (or_introl eq_refl) eq_refl eq_refl (or_introl eq_refl)
       eq_refl) eq_refl).
Defined.

(** * Further properties of the catalog item *)

(** ** Maps built from a list of names *)

Lemma set_graph {V : Type} (f : string -> V) (n : string)
    (acc : list string) :
  Js.set n (f n) (map (fun k => (k, f k)) acc) =
  map (fun k => (k, f k))
      (if existsb (String.eqb n) acc then acc else acc ++ [n]).
Proof.
  induction acc as [|a rest IH]; cbn [map Js.set existsb app];
    [reflexivity|].
  rewrite (String.eqb_sym n a).
  destruct (String.eqb_spec a n) as [->|Hne]; cbn [orb]; [reflexivity|].
  rewrite IH. destruct (existsb (String.eqb n) rest); reflexivity.
Qed.

Lemma fold_set_graph {V : Type} (f : string -> V)
    (names acc : list string) :
  fold_left (fun m kv => Js.set (fst kv) (snd kv) m)
            (map (fun k => (k, f k)) names)
            (map (fun k => (k, f k)) acc) =
  map (fun k => (k, f k))
      (fold_left
         (fun seen name =>
            if existsb (String.eqb name) seen then seen else seen ++ [name])
         names acc).
Proof.
  revert acc.
  induction names as [|n ns IH]; intros acc; cbn [map fold_left fst snd];
    [reflexivity|].
  rewrite set_graph. apply IH.
Qed.

Lemma of_entries_graph {V : Type} (f : string -> V) (names : list string) :
  Js.of_entries (map (fun k => (k, f k)) names) =
  map (fun k => (k, f k)) (first_occurrences names).
Proof. exact (fold_set_graph f names []). Qed.

Lemma first_occurrences_fold_In (names acc : list string) (x : string) :
  In x (fold_left
          (fun seen name =>
             if existsb (String.eqb name) seen then seen else seen ++ [name])
          names acc) <->
  In x acc \/ In x names.
Proof.
  revert acc. induction names as [|n ns IH]; intros acc; cbn [fold_left In].
  - tauto.
  - rewrite IH. destruct (existsb (String.eqb n) acc) eqn:E.
    + apply existsb_eqb_In in E. split; [tauto|].
      intros [H|[<-|H]]; tauto.
    + rewrite in_app_iff. cbn [In]. tauto.
Qed.

Lemma first_occurrences_fold_NoDup (names acc : list string) :
  NoDup acc ->
  NoDup (fold_left
           (fun seen name =>
              if existsb (String.eqb name) seen then seen else seen ++ [name])
           names acc).
Proof.
  revert acc. induction names as [|n ns IH]; intros acc Hacc;
    cbn [fold_left]; [exact Hacc|].
  apply IH. destruct (existsb (String.eqb n) acc) eqn:E; [exact Hacc|].
  assert (Hnot : ~ In n acc).
  { intros Hin. apply existsb_eqb_In in Hin. congruence. }
  clear E. induction acc as [|a rest IHa]; cbn [app].
  - constructor; [intros []|constructor].
  - inversion Hacc as [|? ? Ha Hrest]; subst. constructor.
    + rewrite in_app_iff. cbn [In]. intros [H|[H|[]]]; [exact (Ha H)|].
      apply Hnot. left. symmetry. exact H.
    + apply IHa; [exact Hrest|]. intros H. apply Hnot. right. exact H.
Qed.

Lemma first_occurrences_fold_length (names acc : list string) :
  length (fold_left
            (fun seen name =>
               if existsb (String.eqb name) seen then seen else seen ++ [name])
            names acc) <= length acc + length names.
Proof.
  revert acc. induction names as [|n ns IH]; intros acc;
    cbn [fold_left length]; [lia|].
  specialize (IH (if existsb (String.eqb n) acc then acc else acc ++ [n])).
  destruct (existsb (String.eqb n) acc); [lia|].
  rewrite length_app in IH. cbn [length] in IH. lia.
Qed.

Lemma first_occurrences_In (names : list string) (x : string) :
  In x (first_occurrences names) <-> In x names.
Proof.
  unfold first_occurrences. rewrite first_occurrences_fold_In.
  cbn [In]. tauto.
Qed.

Lemma first_occurrences_NoDup (names : list string) :
  NoDup (first_occurrences names).
Proof. apply first_occurrences_fold_NoDup. constructor. Qed.

Lemma first_occurrences_length (names : list string) :
  length (first_occurrences names) <= length names.
Proof.
  unfold first_occurrences.
  pose proof (first_occurrences_fold_length names []) as H.
  cbn [length] in H. lia.
Qed.

Lemma get_graph {V : Type} (f : string -> V) (names : list string)
    (x : string) :
  Js.get x (map (fun k => (k, f k)) names) =
  if existsb (String.eqb x) names then Some (f x) else None.
Proof.
  induction names as [|n ns IH]; cbn [map Js.get existsb]; [reflexivity|].
  rewrite (String.eqb_sym x n).
  destruct (String.eqb_spec n x) as [->|Hne]; cbn [orb]; [reflexivity|].
  exact IH.
Qed.

Lemma split_length (sep : ascii) (s : string) :
  length (Js.split sep s) = S (count_char sep s).
Proof.
  induction s as [|c rest IH]; cbn [Js.split count_char]; [reflexivity|].
  pose proof (split_nonempty sep rest) as Hn.
  destruct (Ascii.eqb c sep); cbn [length].
  - rewrite IH. reflexivity.
  - destruct (Js.split sep rest) as [|p ps]; [contradiction|].
    cbn [length] in *. rewrite IH. reflexivity.
Qed.

(** X1. For a non-empty [layers] string the number of selected layers is one
    more than the number of commas in it: empty names, between two commas or
    at either end, are kept. *)
Theorem layersArray_counts_commas (it : WebMapServiceCatalogItem)
    (s : string) :
  layers it = Some (LayersString s) ->
  s <> "" ->
  length (layersArray it) = S (count_char "," s).
Proof.
  intros Hl Hs. unfold layersArray. rewrite Hl. cbn [Js.truthy].
  destruct (String.eqb_spec s ""); [contradiction|]. cbn [negb].
  apply split_length.
Qed.

Lemma layersArray_counts_commas_witness :
  length (layersArray (sampleItem (Some (LayersString "a,,b,")) None
                                  freshStratum)) = 4.
Proof.
  exact (layersArray_counts_commas
           (sampleItem (Some (LayersString "a,,b,")) None freshStratum)
           "a,,b," eq_refl ltac:(discriminate)).
Defined.

(** X2. [capabilitiesLayers] has one entry for each distinct selected layer,
    in the order in which the names first occur in [layersArray]; the entry
    of a name is what the document finds for it, and undefined when no
    document is loaded. So its keys are free of repetitions, a name is a key
    exactly when it is selected, and the map is no larger than the list. *)
Theorem capabilitiesLayers_entries (it : WebMapServiceCatalogItem) :
  let found name :=
    match capabilities (stratum it) with
    | Some c => findLayer c name
    | None => None
    end in
  capabilitiesLayers it =
    map (fun name => (name, found name)) (first_occurrences (layersArray it))
  /\ NoDup (Js.keys (capabilitiesLayers it))
  /\ (forall name, In name (Js.keys (capabilitiesLayers it)) <->
                   In name (layersArray it))
  /\ (forall name, In name (layersArray it) ->
                   Js.get name (capabilitiesLayers it) = Some (found name))
  /\ (forall name, ~ In name (layersArray it) ->
                   Js.get name (capabilitiesLayers it) = None)
  /\ Js.size (capabilitiesLayers it) <= length (layersArray it).
Proof.
  intros found.
  assert (Heq : capabilitiesLayers it =
                map (fun name => (name, found name))
                    (first_occurrences (layersArray it))).
  { unfold capabilitiesLayers. apply (of_entries_graph found). }
  assert (Hkeys : Js.keys (capabilitiesLayers it) =
                  first_occurrences (layersArray it)).
  { rewrite Heq. unfold Js.keys. rewrite map_map. cbn [fst]. apply map_id. }
  split; [exact Heq|]. split; [|split; [|split; [|split]]].
  - rewrite Hkeys. apply first_occurrences_NoDup.
  - intros name. rewrite Hkeys. apply first_occurrences_In.
  - intros name Hin. rewrite Heq, get_graph.
    apply (proj2 (first_occurrences_In _ _)) in Hin.
    apply (proj2 (existsb_eqb_In _ _)) in Hin. rewrite Hin. reflexivity.
  - intros name Hnot. rewrite Heq, get_graph.
    destruct (existsb (String.eqb name) (first_occurrences (layersArray it)))
      eqn:E; [|reflexivity].
    apply existsb_eqb_In in E.
    apply (proj1 (first_occurrences_In _ _)) in E. contradiction.
  - unfold Js.size. rewrite Heq, length_map.
    apply first_occurrences_length.
Qed.

(** ** Styles and legends *)

Lemma map_throwing_none {A B : Type} (f : A -> option B) (xs : list A) :
  Js.map_throwing f xs = None <-> exists x, In x xs /\ f x = None.
Proof.
  induction xs as [|x rest IH]; cbn [Js.map_throwing In].
  - split; [discriminate|]. intros [x [[] _]].
  - destruct (f x) as [y|] eqn:Hx.
    + destruct (Js.map_throwing f rest) as [ys|].
      * split; [discriminate|]. intros [z [[<-|Hin] Hz]]; [congruence|].
        destruct IH as [_ IH]. discriminate IH. exists z. tauto.
      * split; [|reflexivity]. intros _.
        destruct IH as [IH _]. destruct (IH eq_refl) as [z [Hin Hz]].
        exists z. tauto.
    + split; [|reflexivity]. intros _. exists x. tauto.
Qed.

Lemma map_throwing_total {A B : Type} (g : A -> B) (xs : list A) :
  Js.map_throwing (fun x => Some (g x)) xs = Some (map g xs).
Proof.
  induction xs as [|x rest IH]; cbn [Js.map_throwing map]; [reflexivity|].
  rewrite IH. reflexivity.
Qed.

Section StyleFacts.
Context {collaborators : Collaborators} {realm : Realm}.

(** The conversion of the styles of a looked-up layer. *)
Let converted (c : WebMapServiceCapabilities)
    (layer : option CapabilitiesLayer) : option (list WebMapServiceStyle) :=
  Js.map_throwing toWebMapServiceStyle
    match layer with
    | Some l => getInheritedStyles c l
    | None => []
    end.

Lemma toWebMapServiceStyle_none (style : CapabilitiesStyle) :
  toWebMapServiceStyle style = None <->
  exists href fmt,
    legendHref style = Some (href, fmt) /\ decodeURIComponent href = None.
Proof.
  unfold toWebMapServiceStyle.
  destruct (legendHref style) as [[href fmt]|].
  - destruct (decodeURIComponent href) as [d|] eqn:Hd.
    + split; [discriminate|]. intros [h [f [[= <- <-] Hh]]]. congruence.
    + split; [|reflexivity]. intros _. exists href, fmt. tauto.
  - split; [discriminate|]. intros [h [f [Hh _]]]. discriminate.
Qed.

Lemma converted_legends (styles : list CapabilitiesStyle)
    (cv : list WebMapServiceStyle) :
  Js.map_throwing toWebMapServiceStyle styles = Some cv ->
  Js.defined (map wms_legendUrl cv) = flat_map styleLegends styles.
Proof.
  revert cv. induction styles as [|style rest IH]; intros cv;
    cbn [Js.map_throwing flat_map].
  - intros [= <-]. reflexivity.
  - unfold styleLegends at 1.
    destruct (toWebMapServiceStyle style) as [s|]; [|discriminate].
    destruct (Js.map_throwing toWebMapServiceStyle rest) as [ys|];
      [|discriminate].
    intros [= <-]. cbn [map Js.defined]. rewrite (IH ys eq_refl).
    destruct (wms_legendUrl s); reflexivity.
Qed.

Lemma availableStyles_loop_some (c : WebMapServiceCapabilities)
    (tuples : list (string * option CapabilitiesLayer))
    (result r : WebMapServiceStyles) :
  NoDup (map fst tuples) ->
  availableStyles_loop c tuples result = Some r ->
  (forall n l, In (n, l) tuples ->
     exists cv, converted c l = Some cv /\
                member n r = JsObject.Assigned cv) /\
  (forall n cv, ~ In n (map fst tuples) ->
     member n result = JsObject.Assigned cv ->
     member n r = JsObject.Assigned cv).
Proof.
  revert result.
  induction tuples as [|[n0 l0] rest IH]; intros result Hnd;
    cbn [availableStyles_loop map fst].
  - intros [= <-]. split; [intros n l []|intros n cv _ H; exact H].
  - inversion Hnd as [|? ? Hn0 Hrest]; subst.
    fold (converted c l0).
    destruct (converted c l0) as [cv|] eqn:Hcv; [|discriminate].
    intros Hloop. destruct (IH _ Hrest Hloop) as [Hin Hout].
    split.
    + intros n l [[= <- <-]|H]; [|exact (Hin n l H)].
      exists cv. split; [exact Hcv|].
      apply (Hout n0 cv Hn0). apply member_set_same.
    + intros n cv' Hnot Hmem. cbn [In] in Hnot.
      apply Hout; [tauto|].
      apply member_set_other; [|exact Hmem]. intros ->. tauto.
Qed.

Lemma availableStyles_loop_none (c : WebMapServiceCapabilities)
    (tuples : list (string * option CapabilitiesLayer))
    (result : WebMapServiceStyles) :
  availableStyles_loop c tuples result = None <->
  exists n l, In (n, l) tuples /\ converted c l = None.
Proof.
  revert result.
  induction tuples as [|[n0 l0] rest IH]; intros result;
    cbn [availableStyles_loop In].
  - split; [discriminate|]. intros [n [l [[] _]]].
  - fold (converted c l0).
    destruct (converted c l0) as [cv|] eqn:Hcv.
    + rewrite IH. split.
      * intros [n [l [Hin Hl]]]. exists n, l. tauto.
      * intros [n [l [[[= <- <-]|Hin] Hl]]]; [congruence|].
        exists n, l. tauto.
    + split; [|reflexivity]. intros _. exists n0, l0. tauto.
Qed.

Lemma capabilitiesLayers_graph (it : WebMapServiceCatalogItem)
    (c : WebMapServiceCapabilities) :
  capabilities (stratum it) = Some c ->
  capabilitiesLayers it =
  map (fun name => (name, findLayer c name))
      (first_occurrences (layersArray it)).
Proof.
  intros Hc. unfold capabilitiesLayers. rewrite Hc.
  apply (of_entries_graph (findLayer c)).
Qed.

Lemma In_capabilitiesLayers (it : WebMapServiceCatalogItem)
    (c : WebMapServiceCapabilities) (n : string)
    (l : option CapabilitiesLayer) :
  capabilities (stratum it) = Some c ->
  In (n, l) (capabilitiesLayers it) <->
  In n (layersArray it) /\ l = findLayer c n.
Proof.
  intros Hc. rewrite (capabilitiesLayers_graph it c Hc), in_map_iff. split.
  - intros [x [[= <- <-] Hin]].
    split; [apply first_occurrences_In; exact Hin|reflexivity].
  - intros [Hin ->]. exists n.
    split; [reflexivity|apply first_occurrences_In; exact Hin].
Qed.

Lemma NoDup_capabilitiesLayers (it : WebMapServiceCatalogItem)
    (c : WebMapServiceCapabilities) :
  capabilities (stratum it) = Some c ->
  NoDup (map fst (capabilitiesLayers it)).
Proof.
  intros Hc. rewrite (capabilitiesLayers_graph it c Hc), map_map.
  cbn [fst]. rewrite map_id. apply first_occurrences_NoDup.
Qed.

Lemma converted_none (c : WebMapServiceCapabilities)
    (layer : option CapabilitiesLayer) :
  converted c layer = None <->
  exists l style href fmt,
    layer = Some l /\ In style (getInheritedStyles c l) /\
    legendHref style = Some (href, fmt) /\ decodeURIComponent href = None.
Proof.
  unfold converted. rewrite map_throwing_none. split.
  - intros [style [Hin Hnone]].
    apply toWebMapServiceStyle_none in Hnone.
    destruct Hnone as [href [fmt [Hh Hd]]].
    destruct layer as [l|]; [|destruct Hin].
    exists l, style, href, fmt. tauto.
  - intros [l [style [href [fmt [-> [Hin [Hh Hd]]]]]]].
    exists style. split; [exact Hin|].
    apply toWebMapServiceStyle_none. exists href, fmt. tauto.
Qed.

Lemma availableStyles_none (it : WebMapServiceCatalogItem)
    (c : WebMapServiceCapabilities) :
  capabilities (stratum it) = Some c ->
  availableStyles it = None <->
  exists name l style href fmt,
    In name (layersArray it) /\ findLayer c name = Some l /\
    In style (getInheritedStyles c l) /\
    legendHref style = Some (href, fmt) /\ decodeURIComponent href = None.
Proof.
  intros Hc. unfold availableStyles. rewrite Hc.
  rewrite availableStyles_loop_none. split.
  - intros [n [layer [Hin Hnone]]].
    apply (In_capabilitiesLayers it c n layer Hc) in Hin.
    destruct Hin as [Hin ->].
    apply converted_none in Hnone.
    destruct Hnone as [l [style [href [fmt [Hl H]]]]].
    exists n, l, style, href, fmt. tauto.
  - intros [name [l [style [href [fmt [Hin [Hl H]]]]]]].
    exists name, (Some l). split.
    + apply (In_capabilitiesLayers it c name (Some l) Hc).
      split; [exact Hin|symmetry; exact Hl].
    + apply converted_none. exists l, style, href, fmt. tauto.
Qed.

Lemma getLegendUrlsForLayer_of_document (it : WebMapServiceCatalogItem)
    (c : WebMapServiceCapabilities) (styles : WebMapServiceStyles)
    (name : string) :
  capabilities (stratum it) = Some c ->
  availableStyles it = Some styles ->
  In name (layersArray it) ->
  getLegendUrlsForLayer name styles = Some (layerLegends c name).
Proof.
  intros Hc Hav Hin. unfold availableStyles in Hav. rewrite Hc in Hav.
  destruct (availableStyles_loop_some c _ JsObject.empty styles
              (NoDup_capabilitiesLayers it c Hc) Hav) as [Hget _].
  destruct (Hget name (findLayer c name)) as [cv [Hcv Hlook]].
  { apply (In_capabilitiesLayers it c name _ Hc). tauto. }
  unfold getLegendUrlsForLayer, layerLegends. rewrite Hlook.
  unfold converted in Hcv.
  rewrite (converted_legends _ cv Hcv).
  destruct (findLayer c name); reflexivity.
Qed.

(** Every selected name of an item with a document reads back from
    [availableStyles] what the loop assigned to it. *)
Lemma legendUrls_of_styles (it : WebMapServiceCatalogItem)
    (c : WebMapServiceCapabilities) (styles : WebMapServiceStyles) :
  capabilities (stratum it) = Some c ->
  availableStyles it = Some styles ->
  legendUrls it = Some (flat_map (layerLegends c) (layersArray it)).
Proof.
  intros Hc Hav. unfold legendUrls. rewrite Hav.
  assert (H : forall names,
            (forall n, In n names -> In n (layersArray it)) ->
            Js.map_throwing
              (fun layer => getLegendUrlsForLayer layer styles) names =
            Some (map (layerLegends c) names)).
  { induction names as [|n ns IH]; intros Hsub; [reflexivity|].
    cbn [Js.map_throwing map].
    rewrite (getLegendUrlsForLayer_of_document it c styles n Hc Hav
               (Hsub n (or_introl eq_refl))).
    rewrite IH; [reflexivity|]. intros m Hm. apply Hsub. right. exact Hm. }
  rewrite (H (layersArray it) (fun n Hn => Hn)).
  rewrite flat_map_concat_map. reflexivity.
Qed.

(** What a name reads from the empty object. *)
Lemma getLegendUrlsForLayer_empty (name : string) :
  getLegendUrlsForLayer name JsObject.empty =
  if String.eqb name "__proto__" || inObjectPrototype name
  then None else Some [].
Proof.
  unfold getLegendUrlsForLayer, member, JsObject.own.
  cbn [JsObject.prototype JsObject.empty JsObject.indexed JsObject.named].
  destruct (String.eqb name "__proto__"); [reflexivity|].
  cbn [orb]. destruct (JsObject.array_index name); cbn [Js.get];
    destruct (inObjectPrototype name); reflexivity.
Qed.

Lemma map_throwing_empty_lists {A B : Type} (g : A -> option (list B))
    (xs : list A) (a : list (list B)) :
  (forall x ys, g x = Some ys -> ys = []) ->
  Js.map_throwing g xs = Some a -> concat a = [].
Proof.
  intros Hg. revert a. induction xs as [|x rest IH]; intros a;
    cbn [Js.map_throwing].
  - intros [= <-]. reflexivity.
  - destruct (g x) as [ys|] eqn:Hx; [|discriminate].
    destruct (Js.map_throwing g rest) as [yss|]; [|discriminate].
    intros [= <-]. cbn [concat].
    rewrite (Hg x ys Hx), (IH yss eq_refl). reflexivity.
Qed.

(** X3. With no capabilities document loaded, [availableStyles] is the
    empty object, [info] is empty and [rectangle] is undefined, whatever
    layers are selected. Reading [legendUrls] throws exactly when some
    selected layer is called ["__proto__"] or by a name that
    [Object.prototype] defines, since the empty object inherits those; when
    it returns, it is the empty list. *)
Theorem derived_properties_without_capabilities
    (it : WebMapServiceCatalogItem) :
  capabilities (stratum it) = None ->
  availableStyles it = Some JsObject.empty
  /\ (legendUrls it = None <->
      exists name, In name (layersArray it) /\
                   (name = "__proto__" \/ inObjectPrototype name = true))
  /\ (forall urls, legendUrls it = Some urls -> urls = [])
  /\ info it = []
  /\ rectangle it = None.
Proof.
  intros Hc.
  assert (Hav : availableStyles it = Some JsObject.empty).
  { unfold availableStyles. rewrite Hc. reflexivity. }
  assert (Hvalues : Forall (fun v => v = None)
                           (Js.values (capabilitiesLayers it))).
  { unfold capabilitiesLayers. rewrite Hc.
    rewrite (of_entries_graph (fun _ => @None CapabilitiesLayer)).
    unfold Js.values. rewrite map_map. cbn [snd].
    apply Forall_forall. intros v Hv. apply in_map_iff in Hv.
    destruct Hv as [x [<- _]]. reflexivity. }
  split; [exact Hav|]. split; [|split; [|split]].
  - unfold legendUrls. rewrite Hav.
    destruct (Js.map_throwing
                (fun layer => getLegendUrlsForLayer layer JsObject.empty)
                (layersArray it)) as [a|] eqn:Hmap.
    + split; [discriminate|]. intros [name [Hin Hbad]].
      assert (Hnone : Js.map_throwing
                (fun layer => getLegendUrlsForLayer layer JsObject.empty)
                (layersArray it) = None).
      { apply map_throwing_none. exists name. split; [exact Hin|].
        rewrite getLegendUrlsForLayer_empty.
        destruct Hbad as [-> | ->]; [reflexivity|].
        rewrite orb_true_r. reflexivity. }
      congruence.
    + split; [|reflexivity]. intros _.
      apply map_throwing_none in Hmap. destruct Hmap as [name [Hin Hnone]].
      exists name. split; [exact Hin|].
      rewrite getLegendUrlsForLayer_empty in Hnone.
      destruct (String.eqb name "__proto__") eqn:Hp.
      * left. apply String.eqb_eq. exact Hp.
      * right. cbn [orb] in Hnone.
        destruct (inObjectPrototype name); [reflexivity|discriminate].
  - intros urls. unfold legendUrls. rewrite Hav.
    destruct (Js.map_throwing
                (fun layer => getLegendUrlsForLayer layer JsObject.empty)
                (layersArray it)) as [a|] eqn:Hmap; [|discriminate].
    intros [= <-].
    refine (map_throwing_empty_lists _ _ _ _ Hmap).
    intros x ys H. cbv beta in H.
    rewrite getLegendUrlsForLayer_empty in H.
    destruct (String.eqb x "__proto__" || inObjectPrototype x);
      [discriminate|]. injection H as <-. reflexivity.
  - unfold info. rewrite Hc.
    assert (Hloop : forall size first,
              info_loop size (Js.values (capabilitiesLayers it)) first =
              ([], first)).
    { intros size first.
      induction Hvalues as [|v vs Hv _ IH]; [reflexivity|].
      subst v. cbn [info_loop dataDescription]. exact IH. }
    rewrite Hloop. reflexivity.
  - unfold rectangle.
    assert (Hdef : Js.defined (Js.values (capabilitiesLayers it)) = []).
    { induction Hvalues as [|v vs Hv _ IH]; [reflexivity|].
      subst v. cbn [Js.defined]. exact IH. }
    rewrite Hdef. reflexivity.
Qed.

(** X4. With a document loaded, [legendUrls], when it returns, is the
    concatenation over [layersArray] (in order, a layer selected twice
    counted twice) of the legend URLs of the layer's styles in the document;
    a selected layer that the document does not know contributes nothing. *)
Theorem legendUrls_of_document (it : WebMapServiceCatalogItem)
    (c : WebMapServiceCapabilities) (urls : list LegendUrl) :
  capabilities (stratum it) = Some c ->
  legendUrls it = Some urls ->
  urls = flat_map (layerLegends c) (layersArray it).
Proof.
  intros Hc.
  destruct (availableStyles it) as [styles|] eqn:Hav.
  - rewrite (legendUrls_of_styles it c styles Hc Hav).
    intros [= <-]. reflexivity.
  - unfold legendUrls. rewrite Hav.
    destruct (layersArray it) as [|n ns]; cbn [Js.map_throwing].
    + intros [= <-]. reflexivity.
    + discriminate.
Qed.

(** X5. With a document loaded, reading [legendUrls] throws exactly when
    some selected layer that the document knows has a style whose legend
    href [decodeURIComponent] rejects. *)
Theorem legendUrls_throws_iff (it : WebMapServiceCatalogItem)
    (c : WebMapServiceCapabilities) :
  capabilities (stratum it) = Some c ->
  legendUrls it = None <->
  exists name l style href fmt,
    In name (layersArray it) /\ findLayer c name = Some l /\
    In style (getInheritedStyles c l) /\
    legendHref style = Some (href, fmt) /\ decodeURIComponent href = None.
Proof.
  intros Hc. rewrite <- (availableStyles_none it c Hc).
  destruct (availableStyles it) as [styles|] eqn:Hav.
  - rewrite (legendUrls_of_styles it c styles Hc Hav).
    split; discriminate.
  - split; [reflexivity|]. intros _.
    destruct (proj1 (availableStyles_none it c Hc) Hav)
      as [name [l [style [href [fmt [Hin _]]]]]].
    unfold legendUrls. rewrite Hav.
    destruct (layersArray it) as [|n ns]; [destruct Hin|reflexivity].
Qed.

End StyleFacts.

Lemma derived_properties_without_capabilities_witness :
  capabilities
    (stratum (sampleItem (Some (LayersString "toString")) None freshStratum))
    = None
  /\ legendUrls (collaborators := sampleCollaborators) (realm := sampleRealm)
       (sampleItem (Some (LayersString "toString")) None freshStratum) =
     None.
Proof.
  split; [reflexivity|].
  apply (proj2 (proj1 (proj2
    (derived_properties_without_capabilities
       (collaborators := sampleCollaborators) (realm := sampleRealm)
       (sampleItem (Some (LayersString "toString")) None freshStratum)
       eq_refl)))).
  exists "toString". split; [left; reflexivity|right; reflexivity].
Defined.

Lemma legendUrls_of_document_witness :
  legendUrls (collaborators := sampleCollaborators) (realm := sampleRealm)
    repeatedItem =
    Some [{| legend_url := "http://example.com/legend rain.png";
             legend_mimeType := Some "image/png" |};
          {| legend_url := "http://example.com/legend rain.png";
             legend_mimeType := Some "image/png" |}]
  /\ [{| legend_url := "http://example.com/legend rain.png";
         legend_mimeType := Some "image/png" |};
      {| legend_url := "http://example.com/legend rain.png";
         legend_mimeType := Some "image/png" |}] =
     flat_map (layerLegends (collaborators := sampleCollaborators)
                 sampleDocument) (layersArray repeatedItem).
Proof.
  split; [reflexivity|].
  exact (legendUrls_of_document (collaborators := sampleCollaborators)
           (realm := sampleRealm) repeatedItem sampleDocument _
           eq_refl eq_refl).
Defined.

Lemma legendUrls_throws_iff_witness :
  legendUrls (collaborators := sampleCollaborators) (realm := sampleRealm)
    brokenItem = None.
Proof.
  apply (legendUrls_throws_iff (collaborators := sampleCollaborators)
           (realm := sampleRealm) brokenItem brokenDocument eq_refl).
  exists "broken", brokenLayer, brokenStyle,
    "http://example.com/l%E9gende.png", (Some "image/png").
  repeat split; cbn; auto.
Defined.

(** ** The info sections, further *)

Lemma dataDescription_shape (size : nat) (layer : option CapabilitiesLayer)
    (traits : InfoSectionTraits) :
  dataDescription size layer = Some traits ->
  exists l,
    layer = Some l /\
    layer_Abstract l = Some (info_content traits) /\
    Js.truthy (Some (info_content traits)) = true /\
    info_name traits =
      ("Data Description" ++
       (if (size =? 1)%nat then ""
        else " - " ++ Js.to_template (layer_Title l)))%string.
Proof.
  unfold dataDescription.
  destruct layer as [l|]; [|discriminate].
  destruct (layer_Abstract l) as [abstract|] eqn:Ha; [|discriminate].
  destruct (Js.truthy (Some abstract)) eqn:Ht; cbn [negb orb];
    [|discriminate].
  destruct (containsAny abstract abstractsToIgnore); [discriminate|].
  intros [= <-]. exists l. cbn [info_content info_name].
  repeat split; assumption || reflexivity.
Qed.

Lemma info_loop_sections (size : nat) (ls : list (option CapabilitiesLayer))
    (first : option string) (e : InfoSectionTraits) :
  In e (fst (info_loop size ls first)) ->
  exists layer, In layer ls /\ dataDescription size layer = Some e.
Proof.
  revert first.
  induction ls as [|layer rest IH]; intros first; cbn [info_loop].
  - intros [].
  - destruct (dataDescription size layer) as [traits|] eqn:Hd.
    + destruct (info_loop size rest
                  (Js.or first (Some (info_content traits))))
        as [result final] eqn:Hloop.
      cbn [fst]. intros [<-|Hin].
      * exists layer. split; [left; reflexivity|exact Hd].
      * destruct (IH (Js.or first (Some (info_content traits))) )
          as [layer' [Hin' Hd']]; [rewrite Hloop; exact Hin|].
        exists layer'. split; [right; exact Hin'|exact Hd'].
    + intros Hin. destruct (IH first Hin) as [layer' [Hin' Hd']].
      exists layer'. split; [right; exact Hin'|exact Hd'].
Qed.

Lemma info_loop_length (size : nat) (ls : list (option CapabilitiesLayer))
    (first : option string) :
  length (fst (info_loop size ls first)) <= length ls.
Proof.
  revert first.
  induction ls as [|layer rest IH]; intros first;
    cbn [info_loop length fst]; [lia|].
  destruct (dataDescription size layer) as [traits|].
  - specialize (IH (Js.or first (Some (info_content traits)))).
    destruct (info_loop size rest _) as [result final].
    cbn [fst length] in *. lia.
  - specialize (IH first). lia.
Qed.

(** The [firstDataDescription] that the loop ends with is the one it
    started with or, when it started with none, the abstract of the first
    section it pushed. *)
Lemma info_loop_final (size : nat) (ls : list (option CapabilitiesLayer))
    (first : option string) :
  first = None \/ Js.truthy first = true ->
  snd (info_loop size ls first) =
  match first with
  | Some _ => first
  | None =>
      option_map info_content (hd_error (fst (info_loop size ls first)))
  end.
Proof.
  revert first.
  induction ls as [|layer rest IH]; intros first Hfirst; cbn [info_loop].
  - destruct first; reflexivity.
  - destruct (dataDescription size layer) as [traits|] eqn:Hd.
    + destruct (dataDescription_shape _ _ _ Hd) as [l [_ [_ [Ht _]]]].
      specialize (IH (Js.or first (Some (info_content traits)))).
      destruct (info_loop size rest
                  (Js.or first (Some (info_content traits))))
        as [result final].
      cbn [fst snd hd_error option_map] in *.
      destruct Hfirst as [->|Hfirst].
      * unfold Js.or in IH. cbn [Js.truthy] in IH.
        apply IH. right. exact Ht.
      * unfold Js.or in IH. rewrite Hfirst in IH.
        destruct first as [f|]; [|discriminate Hfirst].
        apply IH. right. exact Hfirst.
    + apply IH. exact Hfirst.
Qed.

Lemma info_loop_names (size : nat) (ls : list (option CapabilitiesLayer))
    (first : option string) (e : InfoSectionTraits) :
  In e (fst (info_loop size ls first)) ->
  String.prefix "Data Description" (info_name e) = true.
Proof.
  intros Hin. destruct (info_loop_sections _ _ _ _ Hin) as [layer [_ Hd]].
  destruct (dataDescription_shape _ _ _ Hd) as [l [_ [_ [_ ->]]]].
  apply prefix_app.
Qed.

Lemma filter_all_false {A : Type} (keep : A -> bool) (l : list A) :
  (forall x, In x l -> keep x = false) -> filter keep l = [].
Proof. apply filter_drops_all. Qed.

(** [info] is the sections of the loop followed by those of the service. *)
Lemma info_parts (it : WebMapServiceCatalogItem) :
  let looped :=
    info_loop (Js.size (capabilitiesLayers it))
              (Js.values (capabilitiesLayers it)) None in
  info it =
    fst looped ++
    match capabilities (stratum it) with
    | Some c =>
        match Service c with
        | Some service => serviceSections service (snd looped)
        | None => []
        end
    | None => []
    end
  /\ filter (fun e => String.prefix "Data Description" (info_name e))
            (info it) = fst looped.
Proof.
  intros looped.
  assert (Heq : info it =
    fst looped ++
    match capabilities (stratum it) with
    | Some c =>
        match Service c with
        | Some service => serviceSections service (snd looped)
        | None => []
        end
    | None => []
    end).
  { unfold info. fold looped. destruct looped as [result first].
    cbn [fst snd].
    destruct (capabilities (stratum it)) as [c|];
      [destruct (Service c)|]; rewrite ?app_nil_r; reflexivity. }
  split; [exact Heq|]. rewrite Heq, filter_app.
  rewrite (filter_keeps_all _ (fst looped)).
  - rewrite filter_drops_all; [apply app_nil_r|].
    intros e He.
    destruct (capabilities (stratum it)) as [c|]; [|destruct He].
    destruct (Service c) as [service|]; [|destruct He].
    exact (serviceSections_names _ _ _ He).
  - intros e He. exact (info_loop_names _ _ _ _ He).
Qed.

(** X6. With a document that has a [Service], [info] holds a
    "Service Description" section with text [a] exactly when [a] is the
    non-empty service abstract, contains none of the ignored strings and is
    not the abstract of the first "Data Description" section; it holds an
    "Access Constraints" section with text [a] exactly when [a] is the
    non-empty access constraints and is not the word "none" in any mix of
    upper and lower case. *)
Theorem info_service_sections (it : WebMapServiceCatalogItem)
    (c : WebMapServiceCapabilities) (service : CapabilitiesService)
    (a : string) :
  capabilities (stratum it) = Some c ->
  Service c = Some service ->
  (In {| info_name := "Service Description"; info_content := a |} (info it)
   <->
   service_Abstract service = Some a /\ a <> "" /\
   containsAny a abstractsToIgnore = false /\
   option_map info_content
     (hd_error (filter (fun e => String.prefix "Data Description"
                                   (info_name e)) (info it))) <> Some a)
  /\
  (In {| info_name := "Access Constraints"; info_content := a |} (info it)
   <->
   AccessConstraints service = Some a /\ a <> "" /\ Js.lower a <> "none").
Proof.
  intros Hc Hs.
  destruct (info_parts it) as [Heq Hfilter]. rewrite Hc, Hs in Heq.
  rewrite Hfilter, Heq.
  rewrite <- (info_loop_final _ _ None (or_introl eq_refl)).
  set (looped := info_loop (Js.size (capabilitiesLayers it))
                           (Js.values (capabilitiesLayers it)) None).
  assert (Hnot : forall name, String.prefix "Data Description" name = false ->
            ~ In {| info_name := name; info_content := a |} (fst looped)).
  { intros name Hname Hin.
    pose proof (info_loop_names _ _ _ _ Hin) as Hp. cbn [info_name] in Hp.
    congruence. }
  unfold serviceSections. split.
  - rewrite !in_app_iff. split.
    + intros [Hin|[Hin|Hin]].
      * exfalso. exact (Hnot "Service Description" eq_refl Hin).
      * destruct (service_Abstract service) as [abstract|]; [|destruct Hin].
        destruct (Js.truthy (Some abstract)) eqn:Ht; cbn [andb] in Hin;
          [|destruct Hin].
        destruct (containsAny abstract abstractsToIgnore) eqn:Hany;
          cbn [negb andb] in Hin; [destruct Hin|].
        destruct (snd looped) as [first|] eqn:Hfirst.
        -- destruct (String.eqb_spec abstract first) as [->|Hne];
             cbn [negb] in Hin; [destruct Hin|].
           destruct Hin as [[= <-]|[]].
           cbn [Js.truthy] in Ht. apply negb_true_iff in Ht.
           apply String.eqb_neq in Ht. repeat split; congruence.
        -- cbn [negb] in Hin. destruct Hin as [[= <-]|[]].
           cbn [Js.truthy] in Ht. apply negb_true_iff in Ht.
           apply String.eqb_neq in Ht. repeat split; congruence.
      * destruct (AccessConstraints service) as [k|]; [|destruct Hin].
        destruct (_ && _); [|destruct Hin].
        destruct Hin as [[=]|[]].
    + intros [Ha [Hne [Hany Hfirst]]]. right. left.
      rewrite Ha. cbn [Js.truthy].
      destruct (String.eqb_spec a ""); [contradiction|]. cbn [negb andb].
      rewrite Hany. cbn [negb andb].
      destruct (snd looped) as [first|].
      * destruct (String.eqb_spec a first) as [->|Hd];
          [congruence|]. left. reflexivity.
      * left. reflexivity.
  - rewrite !in_app_iff. split.
    + intros [Hin|[Hin|Hin]].
      * exfalso. exact (Hnot "Access Constraints" eq_refl Hin).
      * destruct (service_Abstract service) as [abstract|]; [|destruct Hin].
        destruct (_ && _); [|destruct Hin].
        destruct Hin as [[=]|[]].
      * destruct (AccessConstraints service) as [k|]; [|destruct Hin].
        destruct (Js.truthy (Some k)) eqn:Ht; cbn [andb] in Hin;
          [|destruct Hin].
        unfold is_none_word in Hin.
        destruct (String.eqb_spec (Js.lower k) "none") as [He|Hd];
          cbn [negb] in Hin; [destruct Hin|].
        destruct Hin as [[= <-]|[]].
        cbn [Js.truthy] in Ht. apply negb_true_iff in Ht.
        apply String.eqb_neq in Ht. repeat split; congruence.
    + intros [Ha [Hne Hlow]]. right. right.
      rewrite Ha. cbn [Js.truthy].
      destruct (String.eqb_spec a ""); [contradiction|]. cbn [negb andb].
      unfold is_none_word.
      destruct (String.eqb_spec (Js.lower a) "none"); [contradiction|].
      left. reflexivity.
Qed.

Lemma info_service_sections_witness :
  In {| info_name := "Service Description"; info_content := "Weather maps" |}
     (info stockItem).
Proof.
  apply (proj1 (info_service_sections stockItem sampleDocument
                  {| service_Abstract := Some "Weather maps";
                     AccessConstraints := Some "NONE" |}
                  "Weather maps" eq_refl eq_refl)).
  repeat split; cbn; discriminate.
Defined.

(** X7. [info] has at most one section for each distinct selected layer and
    two for the service. With a document loaded, every "Data Description"
    section comes from a selected layer that the document knows: its text is
    that layer's abstract, and its name is "Data Description" alone when
    exactly one distinct layer is selected, and "Data Description - "
    followed by the layer's title (the text "undefined" for a layer without
    title) otherwise. *)
Theorem info_data_sections (it : WebMapServiceCatalogItem) :
  length (info it) <= Js.size (capabilitiesLayers it) + 2
  /\ forall c e,
       capabilities (stratum it) = Some c ->
       In e (info it) ->
       String.prefix "Data Description" (info_name e) = true ->
       exists name l,
         In name (layersArray it) /\ findLayer c name = Some l /\
         layer_Abstract l = Some (info_content e) /\
         info_name e =
           ("Data Description" ++
            (if (Js.size (capabilitiesLayers it) =? 1)%nat then ""
             else " - " ++ Js.to_template (layer_Title l)))%string.
Proof.
  destruct (info_parts it) as [Heq Hfilter]. split.
  - rewrite Heq, length_app.
    pose proof (info_loop_length (Js.size (capabilitiesLayers it))
                  (Js.values (capabilitiesLayers it)) None) as Hlen.
    unfold Js.values in Hlen. rewrite length_map in Hlen.
    assert (Hserv : forall service first,
              length (serviceSections service first) <= 2).
    { intros service first. unfold serviceSections. rewrite length_app.
      destruct (service_Abstract service) as [x|];
        [destruct (_ && _)|];
        (destruct (AccessConstraints service) as [y|];
         [destruct (_ && _)|]); cbn [length]; lia. }
    unfold Js.size, Js.values in *.
    destruct (capabilities (stratum it)) as [c|]; [|cbn [length]; lia].
    destruct (Service c) as [service|]; [|cbn [length]; lia].
    specialize (Hserv service
      (snd (info_loop (length (capabilitiesLayers it))
              (map snd (capabilitiesLayers it)) None))).
    lia.
  - intros c e Hc Hin Hname.
    assert (Hloop : In e (filter (fun e => String.prefix "Data Description"
                                              (info_name e)) (info it))).
    { apply filter_In. split; assumption. }
    rewrite Hfilter in Hloop.
    destruct (info_loop_sections _ _ _ _ Hloop) as [layer [Hlayer Hd]].
    destruct (dataDescription_shape _ _ _ Hd) as [l [-> [Ha [_ Hn]]]].
    unfold Js.values in Hlayer. apply in_map_iff in Hlayer.
    destruct Hlayer as [[name v] [Hv Hentry]]. cbn [snd] in Hv. subst v.
    apply (In_capabilitiesLayers it c name (Some l) Hc) in Hentry.
    destruct Hentry as [Hsel Hfind].
    exists name, l. repeat split; try assumption. symmetry. exact Hfind.
Qed.

(** ** The server vendor *)

Lemma indexOf_In (x : string) (array : list string) :
  (exists i, indexOf x array = Some i) <-> In x array.
Proof.
  induction array as [|y rest IH]; cbn [indexOf In].
  - split; [intros [i H]; discriminate|intros []].
  - destruct (String.eqb_spec y x) as [->|Hne].
    + split; [intros _; left; reflexivity|intros _; exists 0; reflexivity].
    + split.
      * intros [i H]. right. apply IH.
        destruct (indexOf x rest) as [j|]; [exists j; reflexivity|].
        discriminate.
      * intros [H|H]; [contradiction|]. apply IH in H. destruct H as [j ->].
        exists (S j). reflexivity.
Qed.

(** X8. [isGeoServer] is undefined exactly when no document is loaded, and
    true exactly when the loaded document's service has a keyword list whose
    [Keyword] is the string "GEOSERVER" or an array holding that string, in
    exactly this spelling; in every other case it is false. *)
Theorem isGeoServer_iff
    (KeywordList : CapabilitiesService -> option KeywordListT)
    (it : WebMapServiceCatalogItem) :
  (isGeoServer KeywordList it = None <-> capabilities (stratum it) = None)
  /\ (isGeoServer KeywordList it = Some true <->
      exists c service keywords,
        capabilities (stratum it) = Some c /\
        Service c = Some service /\
        KeywordList service = Some keywords /\
        (Keyword keywords = Some (One "GEOSERVER") \/
         exists array, Keyword keywords = Some (Many array) /\
                       In "GEOSERVER" array)).
Proof.
  unfold isGeoServer. split.
  - destruct (capabilities (stratum it)) as [c|]; [|tauto].
    split; [|discriminate].
    destruct (Service c) as [service|]; [|discriminate].
    destruct (KeywordList service) as [keywords|]; [|discriminate].
    destruct (Keyword keywords) as [[k|array]|]; try discriminate.
    destruct (Js.truthy (Some k)); discriminate.
  - split.
    + destruct (capabilities (stratum it)) as [c|] eqn:Hc; [|discriminate].
      destruct (Service c) as [service|] eqn:Hs; [|discriminate].
      destruct (KeywordList service) as [keywords|] eqn:Hk; [|discriminate].
      destruct (Keyword keywords) as [[k|array]|] eqn:Hw; [| |discriminate].
      * destruct (Js.truthy (Some k)); [|discriminate].
        destruct (String.eqb_spec k "GEOSERVER") as [->|]; [|discriminate].
        intros _. exists c, service, keywords.
        split; [reflexivity|]. split; [exact Hs|].
        split; [exact Hk|]. left. exact Hw.
      * destruct (indexOf "GEOSERVER" array) as [i|] eqn:Hi; [|discriminate].
        intros _. exists c, service, keywords.
        split; [reflexivity|]. split; [exact Hs|].
        split; [exact Hk|]. right. exists array.
        split; [exact Hw|]. apply indexOf_In. exists i. exact Hi.
    + intros [c [service [keywords [-> [-> [-> [->|[array [-> Hin]]]]]]]]].
      * reflexivity.
      * apply indexOf_In in Hin. destruct Hin as [i ->]. reflexivity.
Qed.

(** * Further properties of the store *)

Section RenderFacts.
Context {collaborators : Collaborators}.


Lemma store_assign (wr : Write) (w : World) :
  constructed (exec (assign wr) w) = constructed w /\
  item (exec (assign wr) w) =
    (if changes wr (item w) then store wr (item w) else item w).
Proof.
  destruct (changes wr (item w)) eqn:Hch.
  - destruct (transformer_assign wr w Hch) as [_ [-> ->]]. tauto.
  - unfold exec, assign. rewrite Hch. tauto.
Qed.








Lemma forget_nothing (memo : Js.Map Derivation) : forget [] memo = memo.
Proof. unfold forget. apply filter_keeps_all. reflexivity. Qed.

(** A transaction that ends outside any other leaves no key waiting. *)
Lemma unobserved_after_loadCapabilities (w : World) :
  quiescent w -> unobserved (exec loadCapabilities w) = [].
Proof.
  intros [Hdepth _]. rewrite exec_loadCapabilities, exec_runInAction.
  assert (Hopen : inBatch (exec (assign (SetIsLoading true) ;;
                                 assign (SetCapabilities None))
                                (startBatch w)) = 1).
  { rewrite exec_bind. unfold exec, assign.
    repeat match goal with
           | |- context [if ?b then _ else _] => destruct b
           end; cbn [snd];
      rewrite ?(proj2 (proj2 (proj2 (proj2 (settleBatch_frame _)))));
      cbn [inBatch startBatch];
      rewrite ?(proj2 (proj2 (proj2 (proj2 (settleBatch_frame _)))));
      cbn [inBatch startBatch]; rewrite Hdepth; reflexivity. }
  unfold endBatch, releaseUnobserved.
  rewrite (proj2 (proj2 (proj2 (proj2 (settleBatch_frame _))))).
  cbn [inBatch]. rewrite Hopen. reflexivity.
Qed.

(** On a stratum that is marked as loading and holds no capabilities the
    two assignments of [loadCapabilities] assign the values in place. *)
Lemma loadCapabilities_in_place (w : World) :
  quiescent w ->
  unobserved w = [] ->
  stratum (item w) = {| capabilities := None; isLoading := true |} ->
  exec loadCapabilities w = w.
Proof.
  intros [Hdepth Hchanged] Hpending Hs. rewrite exec_loadCapabilities.
  destruct w as [[u l o sh gu gd s] memo pending k depth changed seen].
  cbn in Hdepth, Hchanged, Hs, Hpending. subst depth changed s pending.
  cbn -[forget]. rewrite forget_nothing. reflexivity.
Qed.

(** X11. Calling [loadCapabilities] again while the stratum is still marked
    as loading changes nothing in the store and shows observers nothing
    new; the second call returns what the first returned, so with a URL it
    asks for another fetch of the same proxied URL. *)
Theorem loadCapabilities_again_changes_nothing (w : World) :
  quiescent w ->
  exec loadCapabilities (exec loadCapabilities w) = exec loadCapabilities w
  /\ eval loadCapabilities (exec loadCapabilities w) =
     eval loadCapabilities w.
Proof.
  intros Hq.
  destruct (run_loadCapabilities w Hq) as [Hq1 [Hs1 _]].
  pose proof (loadCapabilities_in_place _ Hq1
                (unobserved_after_loadCapabilities w Hq) Hs1) as Hsame.
  split; [exact Hsame|].
  rewrite (eval_loadCapabilities (exec loadCapabilities w)), Hsame.
  symmetry. apply eval_loadCapabilities.
Qed.

Lemma run_app (events more : list Event) (w : World) :
  run (events ++ more) w = run more (run events w).
Proof. unfold run. apply fold_left_app. Qed.

(** X12. Whatever happened before, and in whatever order loads were started
    and fetches settled, a fetch that resolves installs its document and
    clears [isLoading], and observers are shown exactly that state: a
    response is never ignored for being older than the state it
    overwrites. *)
Theorem last_resolved_fetch_wins (events : list Event)
    (c : WebMapServiceCapabilities) (w : World) :
  quiescent w ->
  stratum (item (run (events ++ [FetchResolved c]) w)) =
    {| capabilities := Some c; isLoading := false |}
  /\ observed (run (events ++ [FetchResolved c]) w) =
     observed (run events w) ++
     [{| capabilities := Some c; isLoading := false |}].
Proof.
  intros Hq. rewrite run_app. cbn [run fold_left handle].
  assert (Hq' : quiescent (run events w)).
  { clear c. revert w Hq. induction events as [|e rest IH]; intros w Hq;
      [exact Hq|].
    cbn [run fold_left]. apply IH.
    destruct e as [|c|reason| |wr]; cbn [handle]; unfold loadMetadata.
    - apply (run_loadCapabilities w Hq).
    - apply (run_onCapabilities c w Hq).
    - exact Hq.
    - apply (run_read w Hq).
    - destruct (edits_trait wr) eqn:E; [apply (run_edit wr w Hq E)|exact Hq].
  }
  destruct (run_onCapabilities c _ Hq') as [_ [Hs Hobs]].
  split; assumption.
Qed.

Lemma stratum_kept (e : Event) (w : World) :
  resolves e = false ->
  stratum (item w) = {| capabilities := None; isLoading := true |} ->
  stratum (item (handle w e)) = {| capabilities := None; isLoading := true |}.
Proof.
  intros He Hs. destruct e as [|c|reason| |wr]; cbn [handle].
  - apply stratum_after_loadCapabilities.
  - discriminate He.
  - exact Hs.
  - rewrite (proj1 (run_mapItems InDerivation w eq_refl)).
    unfold exec, _createImageryProvider.
    destruct (Js.get "now" (transformer w)); exact Hs.
  - destruct (edits_trait wr) eqn:E; [|exact Hs].
    destruct (store_assign wr w) as [_ ->].
    destruct (changes wr (item w)); [|exact Hs].
    unfold edits_trait in E. apply negb_true_iff in E.
    destruct wr; try discriminate E; exact Hs.
Qed.

(** X13. Once [loadMetadata] has been called, [isLoading] stays true and
    the capabilities stay undefined until a fetch resolves: rejected
    fetches, further calls of [loadMetadata], reads of [mapItems] and trait
    edits leave the stratum as it is, and [mapItems], read from a
    derivation, stays empty. *)
Theorem isLoading_until_resolved (w : World) (events : list Event) :
  coherent w ->
  forallb (fun e => negb (resolves e)) events = true ->
  stratum (item (run events (exec loadMetadata w))) =
    {| capabilities := None; isLoading := true |}
  /\ eval (mapItems InDerivation) (run events (exec loadMetadata w)) =
     Some [].
Proof.
  intros H Hev.
  assert (Hs : stratum (item (run events (exec loadMetadata w))) =
               {| capabilities := None; isLoading := true |}).
  { pose proof (stratum_after_loadCapabilities w) as H0.
    fold loadMetadata in H0. revert H0.
    generalize (exec loadMetadata w) as w0. clear H.
    induction events as [|e rest IH]; intros w0 H0; [exact H0|].
    cbn [forallb] in Hev. apply andb_true_iff in Hev.
    destruct Hev as [He Hrest]. apply negb_true_iff in He.
    cbn [run fold_left]. apply (IH Hrest). exact (stratum_kept e w0 He H0). }
  split; [exact Hs|].
  assert (H' : coherent (run events (exec loadMetadata w)))
    by exact (coherent_run events _ (coherent_loadMetadata w H)).
  rewrite (proj2 (run_mapItems InDerivation _ eq_refl)).
  rewrite (createImageryProvider_while_loading InDerivation "now" _ H');
    [reflexivity|].
  rewrite Hs. reflexivity.
Qed.

End RenderFacts.


Lemma loadCapabilities_again_changes_nothing_witness :
  exec (loadCapabilities (collaborators := sampleCollaborators))
       (exec (loadCapabilities (collaborators := sampleCollaborators))
             (worldOf itemWithUrl)) =
  exec (loadCapabilities (collaborators := sampleCollaborators))
       (worldOf itemWithUrl).
Proof.
  exact (proj1 (loadCapabilities_again_changes_nothing
                  (collaborators := sampleCollaborators)
                  (worldOf itemWithUrl) (conj eq_refl eq_refl))).
Defined.

Lemma last_resolved_fetch_wins_witness :
  stratum (item (run (collaborators := sampleCollaborators)
                   ([CallLoad; CallLoad; FetchResolved brokenDocument]
                    ++ [FetchResolved sampleDocument])
                   (worldOf itemWithUrl))) =
  {| capabilities := Some sampleDocument; isLoading := false |}.
Proof.
  exact (proj1 (last_resolved_fetch_wins
                  (collaborators := sampleCollaborators)
                  [CallLoad; CallLoad; FetchResolved brokenDocument]
                  sampleDocument (worldOf itemWithUrl)
                  (conj eq_refl eq_refl))).
Defined.

Lemma isLoading_until_resolved_witness :
  eval (mapItems (collaborators := sampleCollaborators) InDerivation)
       (run (collaborators := sampleCollaborators)
          [FetchRejected (Foreign "network error"); ReadMapItems; CallLoad;
           Edit (SetOpacity None)]
          (exec (loadMetadata (collaborators := sampleCollaborators))
                renderedWorld)) = Some [].
Proof.
  exact (proj2 (isLoading_until_resolved
                  (collaborators := sampleCollaborators) renderedWorld
                  [FetchRejected (Foreign "network error"); ReadMapItems;
                   CallLoad; Edit (SetOpacity None)]
                  coherent_renderedWorld eq_refl)).
Defined.

(** * Further properties of the group traits *)

Lemma set_twice {V : Type} (k : string) (v : V) (m : Js.Map V) :
  Js.set k v (Js.set k v m) = Js.set k v m.
Proof. apply set_present, get_set_same. Qed.

(** X15. Mixing the group traits in twice gives the same schema as mixing
    them in once, and a schema whose property names are free of repetitions
    stays so. *)
Theorem mixGroupTraits_idempotent (Base : ModelTraits) :
  mixGroupTraits (mixGroupTraits Base) = mixGroupTraits Base
  /\ (NoDup (properties Base) -> NoDup (properties (mixGroupTraits Base))).
Proof.
  split.
  - unfold mixGroupTraits, primitiveTrait, modelReferenceArrayTrait.
    set (isOpen := {| trait_name := "Is Open";
                      trait_description := _;
                      trait_type := PrimitiveTrait "boolean" |}).
    set (members := {| trait_name := "Members";
                       trait_description := _;
                       trait_type := ModelReferenceArrayTrait _ |}).
    set (M := Js.set "isOpen" isOpen Base).
    assert (H : Js.set "isOpen" isOpen (Js.set "members" members M) =
                Js.set "members" members M).
    { apply set_present. rewrite get_set_other by discriminate.
      apply get_set_same. }
    rewrite H. apply set_twice.
  - intros Hnd. rewrite mixGroupTraits_properties.
    assert (Hadd : forall (ks : list string) (k : string),
              NoDup ks -> ~ In k ks -> NoDup (ks ++ [k])).
    { intros ks k Hks Hk. induction ks as [|a rest IH]; cbn [app].
      - constructor; [intros []|constructor].
      - inversion Hks as [|? ? Ha Hrest]; subst. constructor.
        + rewrite in_app_iff. cbn [In]. intros [H|[H|[]]]; [exact (Ha H)|].
          apply Hk. left. symmetry. exact H.
        + apply IH; [exact Hrest|]. intros H. apply Hk. right. exact H. }
    cbn [filter].
    destruct (existsb (String.eqb "isOpen") (properties Base)) eqn:Eo;
      destruct (existsb (String.eqb "members") (properties Base)) eqn:Em;
      cbn [negb].
    + rewrite app_nil_r. exact Hnd.
    + apply Hadd; [exact Hnd|]. intros H. apply existsb_eqb_In in H.
      congruence.
    + apply Hadd; [exact Hnd|]. intros H. apply existsb_eqb_In in H.
      congruence.
    + change ["isOpen"; "members"] with (["isOpen"] ++ ["members"]).
      rewrite app_assoc. apply Hadd.
      * apply Hadd; [exact Hnd|]. intros H. apply existsb_eqb_In in H.
        congruence.
      * rewrite in_app_iff. cbn [In]. intros [H|[H|[]]]; [|discriminate H].
        apply existsb_eqb_In in H. congruence.
Qed.

Lemma mixGroupTraits_idempotent_witness :
  NoDup (properties (mixGroupTraits groupSchema)).
Proof.
  apply (proj2 (mixGroupTraits_idempotent groupSchema)).
  repeat constructor; cbn; intuition discriminate.
Defined.

(** * Properties of the mobile modal window *)

Lemma is_view_eq (view : option string) (choice : string) :
  is_view view choice = true <-> view = Some choice.
Proof.
  unfold is_view. destruct view as [v|]; [|split; discriminate].
  rewrite String.eqb_eq. split; [intros ->; reflexivity|].
  intros [= ->]. reflexivity.
Qed.

(** X16. When the four option values are pairwise different,
    [renderModalContent] shows a panel exactly when [mobileView] is the
    option value of that panel, and returns null exactly when [mobileView]
    is none of the four values. *)
Theorem renderModalContent_by_option (props : Props) :
  let view := mobileView (viewState props) in
  let options := mobileViewOptions (viewState props) in
  NoDup [option_search options; option_data options;
         option_preview options; option_nowViewing options] ->
  (forall p,
     (exists className,
        renderModalContent props =
          Some {| content_className := className; content_panel := p |})
     <-> view = Some (option_of options p))
  /\ (renderModalContent props = None <->
      forall p, view <> Some (option_of options p)).
Proof.
  intros view options Hnd.
  assert (Hdistinct : forall p q,
            option_of options p = option_of options q -> p = q).
  { inversion Hnd as [|? ? H1 Hnd1]; subst.
    inversion Hnd1 as [|? ? H2 Hnd2]; subst.
    inversion Hnd2 as [|? ? H3 Hnd3]; subst.
    cbn [In] in H1, H2, H3.
    intros p q Hpq. destruct p, q; cbn [option_of] in Hpq;
      try reflexivity; exfalso; intuition congruence. }
  assert (Hcases :
    (exists p className,
       renderModalContent props =
         Some {| content_className := className; content_panel := p |} /\
       view = Some (option_of options p))
    \/ (renderModalContent props = None /\
        forall p, view <> Some (option_of options p))).
  { unfold renderModalContent. fold view options.
    destruct (is_view view (option_search options)) eqn:E1.
    { left. exists MobileSearch. eexists. split; [reflexivity|].
      apply is_view_eq. exact E1. }
    destruct (is_view view (option_data options)) eqn:E2.
    { left. exists DataCatalogTab. eexists. split; [reflexivity|].
      apply is_view_eq. exact E2. }
    destruct (is_view view (option_preview options)) eqn:E3.
    { left. exists DataPreview. eexists. split; [reflexivity|].
      apply is_view_eq. exact E3. }
    destruct (is_view view (option_nowViewing options)) eqn:E4.
    { left. exists NowViewingContainer. eexists. split; [reflexivity|].
      apply is_view_eq. exact E4. }
    right. split; [reflexivity|].
    intros p Hp. apply is_view_eq in Hp.
    destruct p; cbn [option_of] in Hp; congruence. }
  split.
  - intros p. split.
    + intros [className Hp].
      destruct Hcases as [[q [cq [Hq Hview]]]|[Hnone _]]; [|congruence].
      rewrite Hq in Hp. injection Hp as _ <-. exact Hview.
    + intros Hview.
      destruct Hcases as [[q [cq [Hq Hview']]]|[_ Hnone]].
      * rewrite Hview in Hview'. injection Hview' as Hpq.
        apply Hdistinct in Hpq. subst q. exists cq. exact Hq.
      * exfalso. exact (Hnone p Hview).
  - split.
    + intros Hnone p Hview.
      destruct Hcases as [[q [cq [Hq _]]]|[_ H]]; [congruence|].
      exact (H p Hview).
    + intros Hall.
      destruct Hcases as [[q [cq [_ Hview]]]|[Hnone _]]; [|exact Hnone].
      exfalso. exact (Hall q Hview).
Qed.

Lemma renderModalContent_by_option_witness :
  exists className,
    renderModalContent previewProps =
      Some {| content_className := className; content_panel := DataPreview |}.
Proof.
  apply (proj1 (renderModalContent_by_option previewProps
                  ltac:(repeat constructor; cbn; intuition discriminate))
               DataPreview).
  reflexivity.
Defined.

(** X17. [render] shows the Done button exactly when it marks the modal
    "is-open", which is when the modal is visible and [mobileView] is a
    non-empty string. A visible modal whose [mobileView] is a non-empty
    string other than the four option values is rendered open, with the Done
    button and no content. *)
Theorem render_open_without_content (props : Props) (v : string) :
  (rendered_done (render props) = true <->
   rendered_className (render props) = "modal--mobile is-open")
  /\ (rendered_done (render props) = true <->
      modalVisible (viewState props) = true /\
      exists view, mobileView (viewState props) = Some view /\ view <> "")
  /\ (modalVisible (viewState props) = true ->
      mobileView (viewState props) = Some v ->
      v <> "" ->
      (forall p, v <> option_of (mobileViewOptions (viewState props)) p) ->
      render props =
        {| rendered_className := "modal--mobile is-open";
           rendered_content := None;
           rendered_done := true |}).
Proof.
  unfold render. cbn [rendered_done rendered_className]. split; [|split].
  - destruct (modalVisible (viewState props)
              && Js.truthy (mobileView (viewState props)));
      split; (reflexivity || discriminate).
  - rewrite andb_true_iff. unfold Js.truthy.
    destruct (mobileView (viewState props)) as [view|].
    + rewrite negb_true_iff, String.eqb_neq. split.
      * intros [Hm Hv]. split; [exact Hm|]. exists view. tauto.
      * intros [Hm [view' [[= <-] Hv]]]. tauto.
    + split; [intros [_ H]; discriminate|].
      intros [_ [view' [H _]]]. discriminate.
  - intros Hm Hv Hne Hnone. rewrite Hm, Hv. cbn [Js.truthy andb].
    destruct (String.eqb_spec v ""); [contradiction|]. cbn [negb].
    f_equal. unfold renderModalContent. rewrite Hv. cbn [is_view].
    pose proof (Hnone MobileSearch) as H1.
    pose proof (Hnone DataCatalogTab) as H2.
    pose proof (Hnone DataPreview) as H3.
    pose proof (Hnone NowViewingContainer) as H4.
    cbn [option_of] in H1, H2, H3, H4.
    apply String.eqb_neq in H1, H2, H3, H4.
    rewrite H1, H2, H3, H4. reflexivity.
Qed.

Lemma render_open_without_content_witness :
  render strayProps =
    {| rendered_className := "modal--mobile is-open";
       rendered_content := None;
       rendered_done := true |}.
Proof.
  apply (proj2 (proj2 (render_open_without_content strayProps "settings")));
    try reflexivity; try discriminate.
  intros p. destruct p; discriminate.
Defined.

(** * The entries of [availableStyles] *)

Lemma keys_insert_indexed {X : Type} (i : N) (k : string) (v : list X)
    (m : list (string * list X)) (name : string) :
  In name (Js.keys (JsObject.insert_indexed i k v m)) <->
  name = k \/ In name (Js.keys m).
Proof.
  unfold Js.keys.
  induction m as [|[k' v'] rest IH]; cbn [JsObject.insert_indexed map fst In].
  - split; [intros [H|[]]; left; symmetry; exact H|].
    intros [H|[]]. left. symmetry. exact H.
  - destruct (String.eqb_spec k' k) as [->|Hne]; cbn [map fst In].
    + split; [intros [H|H]; auto|]. intros [H|[H|H]]; auto.
    + destruct (JsObject.array_index k') as [j|].
      * destruct (i <? j)%N; cbn [map fst In].
        -- split; [intros [H|H]; auto|]. intros [H|H]; auto.
        -- rewrite IH. split; [intros [H|[H|H]]; auto|].
           intros [H|[H|H]]; auto.
      * cbn [map fst In]. split; [intros [H|H]; auto|]. intros [H|H]; auto.
Qed.

Lemma keys_object_set {X : Type} (k : string) (v : list X)
    (o : JsObject.t X) (name : string) :
  In name (JsObject.keys (JsObject.set k v o)) <->
  (name = k /\ k <> "__proto__") \/ In name (JsObject.keys o).
Proof.
  unfold JsObject.set, JsObject.keys.
  destruct (String.eqb_spec k "__proto__") as [->|Hne];
    cbn [JsObject.indexed JsObject.named].
  - split; [auto|]. intros [[_ H]|H]; [contradiction|exact H].
  - destruct (JsObject.array_index k) as [i|];
      cbn [JsObject.indexed JsObject.named]; rewrite !in_app_iff.
    + rewrite keys_insert_indexed. intuition.
    + rewrite keys_set.
      destruct (existsb (String.eqb k) (Js.keys (JsObject.named o))) eqn:E.
      * apply existsb_eqb_In in E.
        split; [intuition|]. intros [[-> _]|H]; intuition.
      * rewrite in_app_iff. cbn [In].
        split; [intros [H|[H|[H|[]]]]; auto|].
        intros [[-> _]|[H|H]]; auto.
Qed.

Section AvailableStylesFacts.
Context {collaborators : Collaborators} {realm : Realm}.

Lemma availableStyles_loop_keys (c : WebMapServiceCapabilities)
    (tuples : list (string * option CapabilitiesLayer))
    (result r : WebMapServiceStyles) (name : string) :
  availableStyles_loop c tuples result = Some r ->
  In name (JsObject.keys r) <->
  In name (JsObject.keys result) \/
  (In name (map fst tuples) /\ name <> "__proto__").
Proof.
  revert result.
  induction tuples as [|[n0 l0] rest IH]; intros result;
    cbn [availableStyles_loop map fst In].
  - intros [= <-]. tauto.
  - destruct (Js.map_throwing toWebMapServiceStyle
                match l0 with
                | Some l => getInheritedStyles c l
                | None => []
                end) as [cv|]; [|discriminate].
    intros Hloop. rewrite (IH _ Hloop), keys_object_set.
    split.
    + intros [[[-> Hne]|H]|[H Hne]]; auto.
    + intros [H|[[<-|H] Hne]]; auto.
Qed.

(** X18. With a document loaded, [availableStyles], when it returns, has as
    own property names exactly the selected layer names other than
    ["__proto__"], and every selected name reads back the converted styles
    of its layer: the empty array for a layer that the document does not
    know. *)
Theorem availableStyles_entries (it : WebMapServiceCatalogItem)
    (c : WebMapServiceCapabilities) (styles : WebMapServiceStyles) :
  capabilities (stratum it) = Some c ->
  availableStyles it = Some styles ->
  (forall name, In name (JsObject.keys styles) <->
                In name (layersArray it) /\ name <> "__proto__")
  /\ (forall name, In name (layersArray it) -> findLayer c name = None ->
                   member name styles = JsObject.Assigned [])
  /\ (forall name l, In name (layersArray it) ->
         findLayer c name = Some l ->
         exists cv,
           Js.map_throwing toWebMapServiceStyle (getInheritedStyles c l) =
             Some cv /\
           member name styles = JsObject.Assigned cv).
Proof.
  intros Hc Hav. unfold availableStyles in Hav. rewrite Hc in Hav.
  pose proof (NoDup_capabilitiesLayers it c Hc) as Hnd.
  assert (Hfst : map fst (capabilitiesLayers it) =
                 first_occurrences (layersArray it)).
  { rewrite (capabilitiesLayers_graph it c Hc), map_map. cbn [fst].
    apply map_id. }
  destruct (availableStyles_loop_some c _ JsObject.empty styles Hnd Hav)
    as [Hin _].
  split; [|split].
  - intros name.
    rewrite (availableStyles_loop_keys c _ JsObject.empty styles name Hav).
    rewrite Hfst, first_occurrences_In.
    cbn [JsObject.keys JsObject.empty JsObject.indexed JsObject.named
         Js.keys map app In]. tauto.
  - intros name Hsel Hfind.
    destruct (Hin name None) as [cv [Hcv Hget]].
    { apply (In_capabilitiesLayers it c name None Hc).
      split; [exact Hsel|symmetry; exact Hfind]. }
    cbn [Js.map_throwing] in Hcv. injection Hcv as <-. exact Hget.
  - intros name l Hsel Hfind.
    destruct (Hin name (Some l)) as [cv [Hcv Hget]].
    { apply (In_capabilitiesLayers it c name (Some l) Hc).
      split; [exact Hsel|symmetry; exact Hfind]. }
    exists cv. split; assumption.
Qed.

End AvailableStylesFacts.

Lemma availableStyles_entries_witness :
  capabilities (stratum twoLayerItem) = Some sampleDocument
  /\ member (realm := sampleRealm) "missing"
       match availableStyles (collaborators := sampleCollaborators)
               twoLayerItem
       with
       | Some styles => styles
       | None => JsObject.empty
       end = JsObject.Assigned [].
Proof.
  split; [reflexivity|].
  exact (proj1 (proj2
    (availableStyles_entries (collaborators := sampleCollaborators)
       (realm := sampleRealm) twoLayerItem sampleDocument _
       eq_refl eq_refl))
    "missing" (or_introl eq_refl) eq_refl).
Defined.
